(** * Batched account fetch of [ts/src/utils/rpc.ts]

    A shallow embedding of [getMultipleAccounts] and
    [getMultipleAccountsCore]: the wire requests they issue, the decode
    loop applied to each response, and the re-assembly of the per-chunk
    results. *)

From Stdlib Require Import List String Ascii NArith Arith Bool Lia.
From Stdlib Require Import Strings.Byte.
From Stdlib Require Import ZArith Zify.
Import ListNotations.
Local Open Scope string_scope.
Local Open Scope list_scope.
Local Open Scope nat_scope.

(* ================================================================== *)
(** * Platform: [Buffer] and its base64 codec *)
(* ================================================================== *)

(** [Buffer.from(s, "base64")] and [buf.toString("base64")] belong to the
    [buffer] package, not to the repository.  They are modelled by the
    RFC 4648 codec with the lenient reading of [buffer]: decoding stops at
    the first ['='], characters outside the (standard or URL-safe)
    alphabet are skipped, and trailing bits that do not fill a byte are
    dropped.  Decoding never throws on a string. *)
Module Base64.

(** A [Buffer] is a sequence of bytes. *)
Definition Buffer := list byte.

Definition alphabet : list ascii :=
  list_ascii_of_string
    "ABCDEFGHIJKLMNOPQRSTUVWXYZabcdefghijklmnopqrstuvwxyz0123456789+/".

(** The character of a 6-bit group. *)
Definition char_of_sextet (n : N) : ascii :=
  nth (N.to_nat n) alphabet "A"%char.

Fixpoint index_in (c : ascii) (l : list ascii) (i : N) : option N :=
  match l with
  | [] => None
  | x :: r => if Ascii.eqb c x then Some i else index_in c r (N.succ i)
  end.

(** The 6-bit group of a character; ['-'] and ['_'] are the URL-safe
    spellings of 62 and 63. *)
Definition sextet_of_char (c : ascii) : option N :=
  if Ascii.eqb c "-"%char then Some 62%N
  else if Ascii.eqb c "_"%char then Some 63%N
  else index_in c alphabet 0%N.

Definition byte_of (n : N) : byte :=
  match Byte.of_N (n mod 256) with
  | Some b => b
  | None => x00
  end.

(** ** Encoding *)

Definition enc3 (a b c : byte) : list ascii :=
  let n := (Byte.to_N a * 65536 + Byte.to_N b * 256 + Byte.to_N c)%N in
  [ char_of_sextet (n / 262144);
    char_of_sextet ((n / 4096) mod 64);
    char_of_sextet ((n / 64) mod 64);
    char_of_sextet (n mod 64) ].

Definition enc2 (a b : byte) : list ascii :=
  let n := (Byte.to_N a * 1024 + Byte.to_N b * 4)%N in
  [ char_of_sextet (n / 4096);
    char_of_sextet ((n / 64) mod 64);
    char_of_sextet (n mod 64);
    "="%char ].

Definition enc1 (a : byte) : list ascii :=
  let n := (Byte.to_N a * 16)%N in
  [ char_of_sextet (n / 64); char_of_sextet (n mod 64);
    "="%char; "="%char ].

Fixpoint encode_chars (l : Buffer) : list ascii :=
  match l with
  | a :: b :: c :: r => enc3 a b c ++ encode_chars r
  | [a; b] => enc2 a b
  | [a] => enc1 a
  | [] => []
  end.

(** [buf.toString("base64")] *)
Definition encode (l : Buffer) : string :=
  string_of_list_ascii (encode_chars l).

(** ** Decoding *)

(** The sextets of the legal characters in front of the first ['=']. *)
Fixpoint sextets (l : list ascii) : list N :=
  match l with
  | [] => []
  | c :: r =>
      if Ascii.eqb c "="%char then []
      else match sextet_of_char c with
           | Some n => n :: sextets r
           | None => sextets r
           end
  end.

Fixpoint decode_sextets (l : list N) : Buffer :=
  match l with
  | s1 :: s2 :: s3 :: s4 :: r =>
      let n := (s1 * 262144 + s2 * 4096 + s3 * 64 + s4)%N in
      byte_of (n / 65536) :: byte_of (n / 256) :: byte_of n
        :: decode_sextets r
  | [s1; s2; s3] =>
      let n := (s1 * 4096 + s2 * 64 + s3)%N in
      [byte_of (n / 1024); byte_of (n / 4)]
  | [s1; s2] =>
      let n := (s1 * 64 + s2)%N in
      [byte_of (n / 16)]
  | _ => []
  end.

(** [Buffer.from(s, "base64")] *)
Definition decode (s : string) : Buffer :=
  decode_sextets (sextets (list_ascii_of_string s)).

End Base64.

(* ================================================================== *)
(** * JavaScript values and control *)
(* ================================================================== *)

(** What a [throw] (or a rejected promise) carries, by throw site. *)
Inductive Exn : Type :=
| FetchError (msg : string)      (* rpc.ts:88, [new Error("failed ...")] *)
| AssertionError                 (* rpc.ts:95 and rpc.ts:115, [assert] *)
| InvalidResponse                (* rpc.ts:124, ["Invalid response"] *)
| LibraryError (msg : string)    (* thrown by the [PublicKey] constructor *)
| TransportError (msg : string). (* [_rpcRequest] itself rejected *)

(** A computation returns or throws; a promise fulfils or rejects. *)
Inductive Result (A : Type) : Type :=
| Ok (a : A)
| Throw (e : Exn).
Arguments Ok {A} a.
Arguments Throw {A} e.

Definition bindR {A B} (r : Result A) (k : A -> Result B) : Result B :=
  match r with
  | Ok a => k a
  | Throw e => Throw e
  end.

Notation "x <-? e ;; k" := (bindR e (fun x => k))
  (at level 61, e at next level, right associativity).

(** [assert(b)] *)
Definition assert (b : bool) : Result unit :=
  if b then Ok tt else Throw AssertionError.

(** Truthiness of a string: only the empty string is falsy. *)
Definition truthy_string (s : string) : bool :=
  negb (String.eqb s "").

(** Truthiness of an object, arrays (also the empty one) included. *)
Definition truthy_object {A} (o : A) : bool := true.

(** [for (const x of l) { s = body(s, x) }], left at the first throw. *)
Fixpoint for_of {A S} (body : S -> A -> Result S) (l : list A) (s : S)
  : Result S :=
  match l with
  | [] => Ok s
  | x :: r =>
      match body s x with
      | Ok s' => for_of body r s'
      | Throw e => Throw e
      end
  end.

(** [l.map((x, idx) => f(x, idx))] *)
Fixpoint map_idx_from {A B} (f : A -> nat -> B) (i : nat) (l : list A)
  : list B :=
  match l with
  | [] => []
  | x :: r => f x i :: map_idx_from f (S i) r
  end.

Definition map_idx {A B} (f : A -> nat -> B) (l : list A) : list B :=
  map_idx_from f 0 l.

(** [sub] occurs in [s]. *)
Definition contains (sub s : string) : Prop :=
  exists pre post, s = (pre ++ sub ++ post)%string.

Definition containsb (sub s : string) : bool :=
  match index 0 sub s with
  | Some _ => true
  | None => false
  end.

(* ================================================================== *)
(** * [@solana/web3.js]: identifiers and commitment levels *)
(* ================================================================== *)

(** The three operations of [PublicKey] the module uses.  The constructor
    validates its input: [inl msg] stands for [throw new Error(msg)]. *)
Class Web3 : Type := {
  PublicKey : Type;
  toBase58 : PublicKey -> string;
  PublicKey_new : string -> string + PublicKey
}.

(** [type Commitment], a union of string literals. *)
Inductive Commitment : Type :=
| processed | confirmed | finalized | recent
| single | singleGossip | root | max'.

Definition Commitment_string (c : Commitment) : string :=
  match c with
  | processed => "processed"
  | confirmed => "confirmed"
  | finalized => "finalized"
  | recent => "recent"
  | single => "single"
  | singleGossip => "singleGossip"
  | root => "root"
  | max' => "max"
  end.

(** ** The wire *)

(** One positional parameter of a request: the array of identifier
    strings, or the trailing object [{commitment}]. *)
Inductive Arg : Type :=
| ArgKeys (keys : list string)
| ArgConfig (commitment : Commitment).

Record WireRequest : Type := {
  method : string;
  params : list Arg
}.

(** A per-account entry of a response: [null] is [None]. *)
Module Raw.
Record t : Type := {
  executable : bool;
  owner : string;
  lamports : N;
  data : string * string      (* [payload, encoding tag] *)
}.
End Raw.

Record RpcError : Type := { message : string }.
Record RpcResult : Type := { value : list (option Raw.t) }.

(** The response envelope: both fields may be missing ([undefined]). *)
Record RpcResponse : Type := {
  error : option RpcError;
  result : option RpcResult
}.

(** The connection: its default commitment, and the remote behind
    [_rpcRequest], which answers a request knowing the requests made
    before it ([inl msg]: the call itself fails). *)
Record Connection : Type := {
  commitment : option Commitment;
  remote : list WireRequest -> WireRequest -> string + RpcResponse
}.

(** ** Network effects *)

(** A computation that issues requests: it extends the trace of the
    requests made so far. *)
Definition Net (A : Type) : Type :=
  list WireRequest -> A * list WireRequest.

Definition ret {A} (a : A) : Net A := fun tr => (a, tr).

Definition bind {A B} (m : Net A) (k : A -> Net B) : Net B :=
  fun tr => let (a, tr') := m tr in k a tr'.

Notation "x <- e ;; k" := (bind e (fun x => k))
  (at level 61, e at next level, right associativity).

(** [connection._rpcRequest(method, args)]: the request goes out when
    the call is made; the result is what the promise settles to. *)
Definition _rpcRequest (connection : Connection) (m : string)
    (args : list Arg) : Net (Result RpcResponse) :=
  fun tr =>
    let req := {| method := m; params := args |} in
    (match remote connection tr req with
     | inl msg => Throw (TransportError msg)
     | inr res => Ok res
     end, tr ++ [req]).

(** [batches.map(f)] for an [f] that issues a request per call: every
    call is made, whatever the earlier promises will settle to. *)
Fixpoint mapNet {A B} (f : A -> Net B) (l : list A) : Net (list B) :=
  match l with
  | [] => ret []
  | x :: r => y <- f x ;; ys <- mapNet f r ;; ret (y :: ys)
  end.

(** ** [Promise.all] *)

(** The earliest rejection among the promises [ps], the first of which
    has index [i]; [settled_at j] is the time at which promise [j]
    settles (the earlier index wins a tie). *)
Fixpoint first_rejection {A} (settled_at : nat -> nat) (i : nat)
    (ps : list (Result A)) : option (nat * Exn) :=
  match ps with
  | [] => None
  | p :: r =>
      let rest := first_rejection settled_at (S i) r in
      match p with
      | Ok _ => rest
      | Throw e =>
          match rest with
          | Some (t, e') =>
              if Nat.ltb t (settled_at i) then Some (t, e')
              else Some (settled_at i, e)
          | None => Some (settled_at i, e)
          end
      end
  end.

Fixpoint fulfilled {A} (ps : list (Result A)) : list A :=
  match ps with
  | [] => []
  | Ok a :: r => a :: fulfilled r
  | Throw _ :: r => fulfilled r
  end.

(** [await Promise.all(ps)]: the values in the order of [ps] when all
    fulfil, otherwise the reason of the promise that rejects first. *)
Definition Promise_all {A} (settled_at : nat -> nat)
    (ps : list (Result A)) : Result (list A) :=
  match first_rejection settled_at 0 ps with
  | Some (_, e) => Throw e
  | None => Ok (fulfilled ps)
  end.

(* ================================================================== *)
(** * [../utils/common.js] *)
(* ================================================================== *)

(** Modelled from the spec: [chunks] of [../utils/common.js] is not
    among the sources.  It splits a sequence into groups of at most
    [size] elements, in order, without empty groups; the empty sequence
    has no group.  [size] is positive.  [chunks_fuel] takes the next
    group off the front as long as elements are left; one unit of fuel
    per element is enough ([chunks_concat] below). *)
Fixpoint chunks_fuel {A} (fuel : nat) (array : list A) (size : nat)
  : list (list A) :=
  match fuel with
  | O => []
  | S fuel' =>
      match array with
      | [] => []
      | _ => firstn size array :: chunks_fuel fuel' (skipn size array) size
      end
  end.

(** Modelled from the spec: [chunks(array, size)], see [chunks_fuel]. *)
Definition chunks {A} (array : list A) (size : nat) : list (list A) :=
  chunks_fuel (List.length array) array size.

(* ================================================================== *)
(** * [ts/src/utils/rpc.ts] *)
(* ================================================================== *)

Section Rpc.

Context {W : Web3}.

(** [AccountInfo<Buffer>], as the decode loop builds it. *)
Record AccountInfo : Type := {
  executable : bool;
  owner : PublicKey;
  lamports : N;
  data : Base64.Buffer
}.

(** An element of the returned array that is not [null].  [publicKey]
    is [publicKeys[idx]], which is [undefined] ([None]) past the end of
    [publicKeys]. *)
Record Slot : Type := {
  publicKey : option PublicKey;
  account : AccountInfo
}.

Definition GET_MULTIPLE_ACCOUNTS_LIMIT : nat := 99.

(** [new PublicKey(owner)] *)
Definition new_PublicKey (s : string) : Result PublicKey :=
  match PublicKey_new s with
  | inl msg => Throw (LibraryError msg)
  | inr k => Ok k
  end.

(** rpc.ts:103-126, the body of the decode loop: [accounts] is the
    array built so far, [account] the entry at hand, [result_value] is
    [res.result.value]. *)
Definition decode_entry (result_value : list (option Raw.t))
    (accounts : list (option AccountInfo)) (account : option Raw.t)
  : Result (list (option AccountInfo)) :=
  let value : option AccountInfo := None in
  match account with
  | None => Ok (accounts ++ [None])
  | Some account =>
      value <-?
        (if truthy_object result_value then
           _ <-? assert (String.eqb (snd (Raw.data account)) "base64") ;;
           owner' <-? new_PublicKey (Raw.owner account) ;;
           Ok (Some {| executable := Raw.executable account;
                       owner := owner';
                       lamports := Raw.lamports account;
                       data := Base64.decode (fst (Raw.data account)) |})
         else Ok value) ;;
      match value with
      | None => Throw InvalidResponse
      | Some v => Ok (accounts ++ [Some v])
      end
  end.

(** rpc.ts:128-136, pairing each decoded account with the identifier
    at its index. *)
Definition pair_with_keys (publicKeys : list PublicKey)
    (accounts : list (option AccountInfo)) : list (option Slot) :=
  map_idx (fun account idx =>
             match account with
             | None => None
             | Some account =>
                 Some {| publicKey := nth_error publicKeys idx;
                         account := account |}
             end) accounts.

(** rpc.ts:87-136, what [getMultipleAccountsCore] does with the
    response once the request has settled. *)
Definition handle_response (publicKeys : list PublicKey)
    (res : RpcResponse) : Result (list (option Slot)) :=
  match error res with
  | Some err =>
      Throw (FetchError
               ("failed to get info about accounts " ++
                String.concat ", " (map toBase58 publicKeys) ++
                ": " ++ message err)%string)
  | None =>
      match result res with
      | None => Throw AssertionError
      | Some result =>
          accounts <-? for_of (decode_entry (value result))
                              (value result) [] ;;
          Ok (pair_with_keys publicKeys accounts)
      end
  end.

(** rpc.ts:75, [commitmentOverride ?? connection.commitment] *)
Definition effective_commitment (connection : Connection)
    (commitmentOverride : option Commitment) : option Commitment :=
  match commitmentOverride with
  | Some c => Some c
  | None => commitment connection
  end.

(** rpc.ts:76-84, the positional parameters of the request. *)
Definition request_args (connection : Connection)
    (publicKeys : list PublicKey)
    (commitmentOverride : option Commitment) : list Arg :=
  let commitment := effective_commitment connection commitmentOverride in
  let args := [ArgKeys (map toBase58 publicKeys)] in
  match commitment with
  | Some c =>
      if truthy_string (Commitment_string c)
      then args ++ [ArgConfig c]
      else args
  | None => args
  end.

Definition getMultipleAccountsCore (connection : Connection)
    (publicKeys : list PublicKey)
    (commitmentOverride : option Commitment)
  : Net (Result (list (option Slot))) :=
  let args := request_args connection publicKeys commitmentOverride in
  res <- _rpcRequest connection "getMultipleAccounts" args ;;
  ret (res <-? res ;; handle_response publicKeys res).

(** rpc.ts:46-66.  Which chunk fails first is for the network to
    decide: [settled_at i] is the time at which the promise of chunk [i]
    settles. *)
Definition getMultipleAccounts (settled_at : nat -> nat)
    (connection : Connection) (publicKeys : list PublicKey)
    (commitment : option Commitment)
  : Net (Result (list (option Slot))) :=
  if List.length publicKeys <=? GET_MULTIPLE_ACCOUNTS_LIMIT then
    getMultipleAccountsCore connection publicKeys commitment
  else
    let batches := chunks publicKeys GET_MULTIPLE_ACCOUNTS_LIMIT in
    promises <-
      mapNet (fun batch =>
                getMultipleAccountsCore connection batch commitment)
             batches ;;
    ret (results <-? Promise_all settled_at promises ;;
         Ok (List.concat results)).

End Rpc.

(* ================================================================== *)
(** * A concrete [PublicKey]: 32 bytes, base-58 on the wire *)
(* ================================================================== *)

(** [PublicKey] of [@solana/web3.js] and the [bs58] codec under it are
    not part of the repository.  This instance follows their documented
    behaviour and serves to run the fetch on concrete inputs; the
    properties below hold for every instance of [Web3]. *)
Module Bs58.

Definition alphabet : list ascii :=
  list_ascii_of_string
    "123456789ABCDEFGHJKLMNPQRSTUVWXYZabcdefghijkmnopqrstuvwxyz".

(** Big-endian value of a byte sequence. *)
Definition N_of_bytes (l : list byte) : N :=
  fold_left (fun a b => (a * 256 + Byte.to_N b)%N) l 0%N.

Fixpoint bytes_of_N_fuel (fuel : nat) (n : N) (acc : list byte)
  : list byte :=
  match fuel with
  | O => acc
  | S fuel' =>
      if (n =? 0)%N then acc
      else bytes_of_N_fuel fuel' (n / 256)%N
                           (Base64.byte_of (n mod 256) :: acc)
  end.

(** Big-endian bytes of a number, without leading zero bytes. *)
Definition bytes_of_N (n : N) : list byte :=
  bytes_of_N_fuel (N.to_nat (N.size n)) n [].

Fixpoint digits_of_N_fuel (fuel : nat) (n : N) (acc : list ascii)
  : list ascii :=
  match fuel with
  | O => acc
  | S fuel' =>
      if (n =? 0)%N then acc
      else digits_of_N_fuel fuel' (n / 58)%N
             (nth (N.to_nat (n mod 58)) alphabet "1"%char :: acc)
  end.

Fixpoint leading {A} (p : A -> bool) (l : list A) : nat :=
  match l with
  | x :: r => if p x then S (leading p r) else 0
  | [] => 0
  end.

(** [bs58.encode] *)
Definition encode (l : list byte) : string :=
  let zeroes := leading (Byte.eqb x00) l in
  let n := N_of_bytes l in
  string_of_list_ascii
    (repeat "1"%char zeroes ++
     digits_of_N_fuel (N.to_nat (N.size n)) n []).

Fixpoint value_of_digits (l : list ascii) (acc : N) : option N :=
  match l with
  | [] => Some acc
  | c :: r =>
      match Base64.index_in c alphabet 0%N with
      | Some d => value_of_digits r (acc * 58 + d)%N
      | None => None
      end
  end.

(** [bs58.decode]; [None] when it throws. *)
Definition decode (s : string) : option (list byte) :=
  let cs := list_ascii_of_string s in
  let zeroes := leading (Ascii.eqb "1"%char) cs in
  match value_of_digits cs 0%N with
  | Some n => Some (repeat x00 zeroes ++ bytes_of_N n)
  | None => None
  end.

(** The key is the number [_bn] of the 32 bytes. *)
Record Key : Type := { _bn : N }.

(** [toBytes()]: 32 bytes, zero-padded in front. *)
Definition toBytes (k : Key) : list byte :=
  let b := bytes_of_N (_bn k) in
  repeat x00 (32 - List.length b) ++ b.

Definition Key_toBase58 (k : Key) : string := encode (toBytes k).

Definition Key_new (s : string) : string + Key :=
  match decode s with
  | None => inl "Non-base58 character"
  | Some decoded =>
      if List.length decoded =? 32
      then inr {| _bn := N_of_bytes decoded |}
      else inl "Invalid public key input"
  end.

#[export] Instance web3 : Web3 := {
  PublicKey := Key;
  toBase58 := Key_toBase58;
  PublicKey_new := Key_new
}.

(** The key whose number is [n]. *)
Definition key (n : nat) : Key := {| _bn := N.of_nat n |}.

(** [n] distinct keys. *)
Definition keys (n : nat) : list Key := map key (seq 1 n).

End Bs58.

(* ================================================================== *)
(** * Observing a fetch *)
(* ================================================================== *)

(** The requests a computation adds to the trace [tr]. *)
Definition issued {A} (m : Net A) (tr : list WireRequest)
  : list WireRequest :=
  skipn (List.length tr) (snd (m tr)).

(** The identifier strings a request carries. *)
Definition request_keys (r : WireRequest) : list string :=
  match params r with
  | ArgKeys ks :: _ => ks
  | _ => []
  end.

(** The entries of a response, none when it has no result. *)
Definition entries (r : string + RpcResponse) : list (option Raw.t) :=
  match r with
  | inr res =>
      match result res with
      | Some rv => value rv
      | None => []
      end
  | inl _ => []
  end.

(** The raw entries the remote returns to the requests [reqs], made in
    this order after [tr]. *)
Fixpoint raw_entries (connection : Connection) (tr reqs : list WireRequest)
  : list (option Raw.t) :=
  match reqs with
  | [] => []
  | r :: rs =>
      entries (remote connection tr r)
        ++ raw_entries connection (tr ++ [r]) rs
  end.

(** The remote answers with one entry per identifier asked for. *)
Definition answers_each_key (connection : Connection) : Prop :=
  forall tr req res rv,
    remote connection tr req = inr res ->
    result res = Some rv ->
    List.length (value rv) = List.length (request_keys req).

Section Batches.

Context {W : Web3}.

(** The groups of identifiers a fetch sends, one request each. *)
Definition batches_of (publicKeys : list PublicKey)
  : list (list PublicKey) :=
  if List.length publicKeys <=? GET_MULTIPLE_ACCOUNTS_LIMIT
  then [publicKeys]
  else chunks publicKeys GET_MULTIPLE_ACCOUNTS_LIMIT.

(** The request [getMultipleAccountsCore] makes for [batch]. *)
Definition request_of (connection : Connection)
    (commitment : option Commitment) (batch : list PublicKey)
  : WireRequest :=
  {| method := "getMultipleAccounts";
     params := request_args connection batch commitment |}.

(** What the promises of the requests for [batches], made in this
    order after [tr], settle to. *)
Definition outcomes (connection : Connection)
    (commitment : option Commitment) (tr : list WireRequest)
    (batches : list (list PublicKey))
  : list (Result (list (option Slot))) :=
  fst (mapNet (fun batch =>
                 getMultipleAccountsCore connection batch commitment)
              batches tr).

End Batches.

Section Pairing.

Context {W : Web3}.

(** The record the decode loop builds from a present entry whose
    owner string parses to [owner']. *)
Definition decoded (account : Raw.t) (owner' : PublicKey) : AccountInfo :=
  {| executable := Raw.executable account;
     owner := owner';
     lamports := Raw.lamports account;
     data := Base64.decode (fst (Raw.data account)) |}.

(** A present entry the decode loop rejects. *)
Definition rejected (account : Raw.t) : Prop :=
  snd (Raw.data account) <> "base64" \/
  exists msg, PublicKey_new (Raw.owner account) = inl msg.

(** [decodes raw ds]: the loop turns the entries [raw] into [ds]. *)
Inductive decodes
  : list (option Raw.t) -> list (option AccountInfo) -> Prop :=
| decodes_nil : decodes [] []
| decodes_null rs ds : decodes rs ds -> decodes (None :: rs) (None :: ds)
| decodes_some a rs pk ds :
    PublicKey_new (Raw.owner a) = inr pk ->
    snd (Raw.data a) = "base64" ->
    decodes rs ds ->
    decodes (Some a :: rs) (Some (decoded a pk) :: ds).

(** [paired keys raw out]: position by position, a [null] entry of
    [raw] faces a [null] of [out], and a present entry faces its
    decoded record together with the identifier of [keys] at that
    position. *)
Inductive paired
  : list PublicKey -> list (option Raw.t) -> list (option Slot) -> Prop :=
| paired_nil : paired [] [] []
| paired_null k ks rs os :
    paired ks rs os ->
    paired (k :: ks) (None :: rs) (None :: os)
| paired_some k ks a rs pk os :
    PublicKey_new (Raw.owner a) = inr pk ->
    snd (Raw.data a) = "base64" ->
    paired ks rs os ->
    paired (k :: ks) (Some a :: rs)
           (Some {| publicKey := Some k; account := decoded a pk |} :: os).

End Pairing.

(* ================================================================== *)
(** * [invoke], rpc.ts:21-42 *)
(* ================================================================== *)

(** [Address = PublicKey | string] *)
Inductive Address {W : Web3} : Type :=
| AddressKey (k : PublicKey)
| AddressString (s : string).

(** [AccountMeta] *)
Record AccountMeta {W : Web3} : Type := {
  pubkey : PublicKey;
  isSigner : bool;
  isWritable : bool
}.

(** The fields [invoke] hands to [new TransactionInstruction]; [data] is
    [undefined] ([None]) when [invoke] was given none. *)
Module Instruction.
Record t {W : Web3} : Type := {
  programId : PublicKey;
  keys : list AccountMeta;
  data : option Base64.Buffer
}.
End Instruction.

(** A [Transaction], as far as [invoke] builds it: its instructions. *)
Record Transaction {W : Web3} : Type := {
  instructions : list Instruction.t
}.

(** [new Transaction()] *)
Definition Transaction_new {W : Web3} : Transaction :=
  {| instructions := [] |}.

(** [tx.add(instruction)] *)
Definition Transaction_add {W : Web3} (tx : Transaction)
    (instruction : Instruction.t) : Transaction :=
  {| instructions := instructions tx ++ [instruction] |}.

Definition TransactionSignature : Type := string.

(** A [Provider], as far as [invoke] uses it: [send] answers a
    transaction knowing the transactions submitted before it. *)
Record Provider {W : Web3} : Type := {
  send : list Transaction -> Transaction -> Result TransactionSignature
}.

(** A computation that submits transactions: it extends the log of the
    submissions made so far, each with the provider it went through. *)
Definition Chain {W : Web3} (A : Type) : Type :=
  list (Provider * Transaction) -> A * list (Provider * Transaction).

(** [provider.send(tx)] *)
Definition Provider_send {W : Web3} (provider : Provider)
    (tx : Transaction) : Chain (Result TransactionSignature) :=
  fun log => (send provider (map snd log) tx, log ++ [(provider, tx)]).

Section Invoke.

Context {W : Web3}.

(** [translateAddress] of [../program/common.js] and [getProvider] of
    [../provider.js] are not among the sources: [invoke] is modelled
    for any two such functions, either of which may throw. *)
Variable translateAddress : Address -> Result PublicKey.
Variable getProvider : unit -> Result Provider.

Definition invoke (programId : Address)
    (accounts : option (list AccountMeta))
    (data : option Base64.Buffer) (provider : option Provider)
  : Chain (Result TransactionSignature) :=
  fun log =>
    match translateAddress programId with
    | Throw e => (Throw e, log)
    | Ok programId =>
        match (match provider with
               | Some provider => Ok provider
               | None => getProvider tt
               end) with
        | Throw e => (Throw e, log)
        | Ok provider =>
            let tx := Transaction_new in
            let tx :=
              Transaction_add tx
                {| Instruction.programId := programId;
                   Instruction.keys :=
                     match accounts with
                     | Some accounts => accounts
                     | None => []
                     end;
                   Instruction.data := data |} in
            Provider_send provider tx log
        end
    end.

End Invoke.

(* ================================================================== *)
(** * Sample remotes *)
(* ================================================================== *)

Module Sample.

(** The identifier of the system program. *)
Definition system_program : string := "11111111111111111111111111111111".

(** A present entry: the five bytes of "hello", owned by the system
    program. *)
Definition entry : Raw.t :=
  {| Raw.executable := false;
     Raw.owner := system_program;
     Raw.lamports := 1000;
     Raw.data := ("aGVsbG8=", "base64") |}.

(** The envelope of a successful response. *)
Definition envelope (l : list (option Raw.t)) : RpcResponse :=
  {| error := None; result := Some {| value := l |} |}.

Definition respond (l : list (option Raw.t)) : string + RpcResponse :=
  inr (envelope l).

Definition fail (msg : string) : string + RpcResponse :=
  inr {| error := Some {| message := msg |}; result := None |}.

(** A ledger on which [missing] has no account and every other
    identifier has [entry]. *)
Definition ledger (missing : string) : Connection :=
  {| commitment := None;
     remote := fun _ req =>
       respond (map (fun k => if String.eqb k missing
                              then None else Some entry)
                    (request_keys req)) |}.

(** A remote that answers every request with the same entries. *)
Definition fixed (l : list (option Raw.t)) : Connection :=
  {| commitment := None; remote := fun _ _ => respond l |}.

(** A remote that reports "boom" for a request of one identifier and
    answers the other requests by [other]. *)
Definition boom_on_single (other : WireRequest -> string + RpcResponse)
  : Connection :=
  {| commitment := Some confirmed;
     remote := fun _ req =>
       if List.length (request_keys req) =? 1 then fail "boom"
       else other req |}.

(** No account anywhere. *)
Definition all_absent (req : WireRequest) : string + RpcResponse :=
  respond (map (fun _ => None) (request_keys req)).

(** Every promise settles at the same time: the earlier chunk wins. *)
Definition together : nat -> nat := fun _ => 0.

(** The ledger on which the third of the keys [Bs58.keys n] is
    missing. *)
Definition ledger3 : Connection :=
  ledger "11111111111111111111111111111114".

(** [entry], decoded. *)
Definition hello : AccountInfo (W := Bs58.web3) :=
  @Build_AccountInfo Bs58.web3 false (Bs58.key 0) 1000
    ["h"%byte; "e"%byte; "l"%byte; "l"%byte; "o"%byte].

Definition slot (n : nat) : option (Slot (W := Bs58.web3)) :=
  Some (@Build_Slot Bs58.web3 (Some (Bs58.key n)) hello).

(** What a fetch of [Bs58.keys 5] returns on [ledger3]. *)
Definition five_slots : list (option (Slot (W := Bs58.web3))) :=
  [slot 1; slot 2; None; slot 4; slot 5].

(** [entry] under another encoding tag. *)
Definition entry_base58 : Raw.t :=
  {| Raw.executable := false;
     Raw.owner := system_program;
     Raw.lamports := 1000;
     Raw.data := ("Cn8eVZg", "base58") |}.

(** [entry] with an owner that is not a base-58 string. *)
Definition entry_bad_owner : Raw.t :=
  {| Raw.executable := false;
     Raw.owner := "0";
     Raw.lamports := 1000;
     Raw.data := ("aGVsbG8=", "base64") |}.

(** An entry with the wrong tag and an owner that is not a base-58
    string. *)
Definition entry_both_bad : Raw.t :=
  {| Raw.executable := false;
     Raw.owner := "0";
     Raw.lamports := 1000;
     Raw.data := ("Cn8eVZg", "base58") |}.

(** The later chunk settles first. *)
Definition reversed : nat -> nat := fun i => 100 - i.

(** A remote that cannot be reached: every call fails. *)
Definition unreachable : Connection :=
  {| commitment := None; remote := fun _ _ => inl "ECONNREFUSED" |}.

(** [entry] past the end of the identifiers asked for. *)
Definition unkeyed : option (Slot (W := Bs58.web3)) :=
  Some (@Build_Slot Bs58.web3 None hello).

(** What the fetch fails with when the remote reports "boom" for the
    request of [Bs58.key 100] alone. *)
Definition boom_100 : string :=
  "failed to get info about accounts 11111111111111111111111111111112j: boom".

(** An address translation that parses strings as identifiers. *)
Definition translate (a : Address (W := Bs58.web3))
  : Result Bs58.Key :=
  match a with
  | AddressKey k => Ok k
  | AddressString s => new_PublicKey (W := Bs58.web3) s
  end.

(** A provider that signs every transaction the same way. *)
Definition signer (signature : string) : Provider (W := Bs58.web3) :=
  {| send := fun _ _ => Ok signature |}.

(** No ambient provider is configured. *)
Definition no_ambient (_ : unit) : Result (Provider (W := Bs58.web3)) :=
  Throw (LibraryError "no provider").

(** Nothing submitted yet. *)
Definition no_submission
  : list (Provider (W := Bs58.web3) * Transaction (W := Bs58.web3)) := [].

(** The transaction of a call of the system program without accounts
    or data. *)
Definition system_call : Transaction (W := Bs58.web3) :=
  Transaction_add Transaction_new
    (@Instruction.Build_t Bs58.web3 (Bs58.key 0) [] None).

(** One writable signer account. *)
Definition payer : AccountMeta (W := Bs58.web3) :=
  @Build_AccountMeta Bs58.web3 (Bs58.key 7) true true.

(** What a fetch of [Bs58.keys 100] returns on [ledger3]. *)
Definition hundred_slots : list (option (Slot (W := Bs58.web3))) :=
  map (fun n => if n =? 3 then None else slot n) (seq 1 100).

(** A remote that leaves out the first identifier of every request of
    more than one, and has [entry] for the others. *)
Definition drops_first : Connection :=
  {| commitment := None;
     remote := fun _ req =>
       respond (map (fun _ => Some entry)
                    (if List.length (request_keys req) <=? 1
                     then request_keys req
                     else tl (request_keys req))) |}.

(** What a fetch of [Bs58.keys 100] returns on [drops_first]: 98 slots
    from the first chunk and one from the second. *)
Definition shifted_slots : list (option (Slot (W := Bs58.web3))) :=
  map slot (seq 1 98) ++ [slot 100].

End Sample.

(* ================================================================== *)
(** * Properties *)
(* ================================================================== *)

(** ** The base64 codec *)

Ltac nlia := zify; Z.to_euclidean_division_equations; lia.

Lemma byte_of_mod (n : N) (b : byte) :
  (n mod 256 = Byte.to_N b)%N -> Base64.byte_of n = b.
Proof.
  intros H. unfold Base64.byte_of. rewrite H, Byte.of_to_N. reflexivity.
Qed.

Lemma to_N_lt (b : byte) : (Byte.to_N b < 256)%N.
Proof. pose proof (Byte.to_N_bounded b). lia. Qed.

Lemma sextet_table :
  forallb (fun i =>
             let n := N.of_nat i in
             match Base64.sextet_of_char (Base64.char_of_sextet n) with
             | Some m => N.eqb m n
             | None => false
             end
             && negb (Ascii.eqb (Base64.char_of_sextet n) "="%char))
          (seq 0 64) = true.
Proof. vm_compute. reflexivity. Qed.

Lemma sextet_of_char_of_sextet (n : N) :
  (n < 64)%N ->
  Base64.sextet_of_char (Base64.char_of_sextet n) = Some n /\
  Ascii.eqb (Base64.char_of_sextet n) "="%char = false.
Proof.
  intros Hn.
  pose proof (proj1 (forallb_forall _ _) sextet_table (N.to_nat n)) as H.
  cbv beta zeta in H. rewrite N2Nat.id in H.
  assert (Hin : In (N.to_nat n) (seq 0 64)) by (apply in_seq; lia).
  specialize (H Hin). apply andb_prop in H. destruct H as [H1 H2].
  split.
  - destruct (Base64.sextet_of_char (Base64.char_of_sextet n)) as [m|];
      [| discriminate].
    apply N.eqb_eq in H1. congruence.
  - now apply negb_true_iff in H2.
Qed.

Lemma sextets_legal (n : N) (r : list ascii) :
  (n < 64)%N ->
  Base64.sextets (Base64.char_of_sextet n :: r) = n :: Base64.sextets r.
Proof.
  intros Hn. destruct (sextet_of_char_of_sextet n Hn) as [H1 H2].
  simpl. rewrite H2, H1. reflexivity.
Qed.

Lemma sextets_pad (r : list ascii) : Base64.sextets ("="%char :: r) = [].
Proof. reflexivity. Qed.

Lemma decode_enc3 (a b c : byte) (r : list ascii) :
  Base64.decode_sextets (Base64.sextets (Base64.enc3 a b c ++ r)) =
  a :: b :: c :: Base64.decode_sextets (Base64.sextets r).
Proof.
  pose proof (to_N_lt a). pose proof (to_N_lt b). pose proof (to_N_lt c).
  unfold Base64.enc3. cbv zeta. simpl app.
  set (n := (Byte.to_N a * 65536 + Byte.to_N b * 256 + Byte.to_N c)%N).
  assert (Hn : (n < 16777216)%N) by (subst n; lia).
  rewrite !sextets_legal by nlia.
  cbn [Base64.decode_sextets].
  replace (n / 262144 * 262144 + n / 4096 mod 64 * 4096
           + n / 64 mod 64 * 64 + n mod 64)%N with n by nlia.
  f_equal; [| f_equal; [| f_equal]]; apply byte_of_mod; subst n; nlia.
Qed.

Lemma decode_enc2 (a b : byte) :
  Base64.decode_sextets (Base64.sextets (Base64.enc2 a b)) = [a; b].
Proof.
  pose proof (to_N_lt a). pose proof (to_N_lt b).
  unfold Base64.enc2. cbv zeta.
  set (n := (Byte.to_N a * 1024 + Byte.to_N b * 4)%N).
  assert (Hn : (n < 262144)%N) by (subst n; lia).
  rewrite !sextets_legal by nlia. rewrite sextets_pad.
  cbn [Base64.decode_sextets].
  replace (n / 4096 * 4096 + n / 64 mod 64 * 64 + n mod 64)%N
    with n by nlia.
  f_equal; [| f_equal]; apply byte_of_mod; subst n; nlia.
Qed.

Lemma decode_enc1 (a : byte) :
  Base64.decode_sextets (Base64.sextets (Base64.enc1 a)) = [a].
Proof.
  pose proof (to_N_lt a).
  unfold Base64.enc1. cbv zeta.
  set (n := (Byte.to_N a * 16)%N).
  assert (Hn : (n < 4096)%N) by (subst n; lia).
  rewrite !sextets_legal by nlia. rewrite sextets_pad.
  cbn [Base64.decode_sextets].
  replace (n / 64 * 64 + n mod 64)%N with n by nlia.
  f_equal; apply byte_of_mod; subst n; nlia.
Qed.

(** Induction on a byte sequence, three bytes at a time. *)
Lemma list_ind3 {A} (P : list A -> Prop) :
  P [] -> (forall a, P [a]) -> (forall a b, P [a; b]) ->
  (forall a b c r, P r -> P (a :: b :: c :: r)) ->
  forall l, P l.
Proof.
  intros H0 H1 H2 H3.
  fix IH 1.
  intros [| a [| b [| c r]]];
    [exact H0 | apply H1 | apply H2 | apply H3, IH].
Qed.

(** Decoding what was encoded gives the bytes back. *)
Lemma base64_roundtrip (l : Base64.Buffer) :
  Base64.decode (Base64.encode l) = l.
Proof.
  unfold Base64.decode, Base64.encode.
  rewrite list_ascii_of_string_of_list_ascii.
  induction l as [| a | a b | a b c r IH] using list_ind3.
  - reflexivity.
  - apply decode_enc1.
  - apply decode_enc2.
  - cbn [Base64.encode_chars]. rewrite decode_enc3, IH. reflexivity.
Qed.

(** ** The chunk planner *)

Lemma chunks_fuel_concat {A} (size : nat) :
  0 < size ->
  forall fuel (l : list A),
    List.length l <= fuel -> List.concat (chunks_fuel fuel l size) = l.
Proof.
  intros Hs. induction fuel as [| fuel IH]; intros l Hl.
  - destruct l; [reflexivity | simpl in Hl; lia].
  - destruct l as [| x r]; [reflexivity |].
    cbn [chunks_fuel List.concat].
    rewrite IH.
    + apply firstn_skipn.
    + rewrite length_skipn. cbn [List.length] in *. lia.
Qed.

Lemma chunks_fuel_sizes {A} (size : nat) :
  0 < size ->
  forall fuel (l : list A),
    Forall (fun c => 0 < List.length c <= size) (chunks_fuel fuel l size).
Proof.
  intros Hs. induction fuel as [| fuel IH]; intros l.
  - constructor.
  - destruct l as [| x r]; [constructor |].
    cbn [chunks_fuel]. constructor; [| apply IH].
    rewrite length_firstn. cbn [List.length]. lia.
Qed.

Lemma chunks_fuel_length {A} (size : nat) :
  0 < size ->
  forall fuel (l : list A),
    List.length l <= fuel ->
    List.length (chunks_fuel fuel l size)
    = (List.length l + size - 1) / size.
Proof.
  intros Hs. induction fuel as [| fuel IH]; intros l Hl.
  - destruct l; [| simpl in Hl; lia]. simpl.
    symmetry. apply Nat.div_small. lia.
  - destruct l as [| x r].
    + simpl. symmetry. apply Nat.div_small. lia.
    + cbn [chunks_fuel List.length].
      rewrite IH by (rewrite length_skipn; cbn [List.length] in *; lia).
      rewrite length_skipn. cbn [List.length].
      destruct (Nat.le_gt_cases (S (List.length r)) size) as [Hle | Hgt].
      * replace (S (List.length r) - size) with 0 by lia.
        rewrite (Nat.div_small (0 + size - 1)) by lia.
        apply (Nat.div_unique _ _ 1 (List.length r)); lia.
      * replace (S (List.length r) + size - 1)
          with (1 * size + (S (List.length r) - size + size - 1)) by lia.
        rewrite Nat.div_add_l by lia. reflexivity.
Qed.

Lemma chunks_concat {A} (l : list A) (size : nat) :
  0 < size -> List.concat (chunks l size) = l.
Proof. intros Hs. apply chunks_fuel_concat; auto. Qed.

Lemma chunks_sizes {A} (l : list A) (size : nat) :
  0 < size -> Forall (fun c => 0 < List.length c <= size) (chunks l size).
Proof. intros Hs. now apply chunks_fuel_sizes. Qed.

Lemma chunks_length {A} (l : list A) (size : nat) :
  0 < size ->
  List.length (chunks l size) = (List.length l + size - 1) / size.
Proof. intros Hs. apply chunks_fuel_length; auto. Qed.

(** ** [Promise.all] *)

Lemma first_rejection_origin {A} (s : nat -> nat) (ps : list (Result A)) :
  forall k t e,
    first_rejection s k ps = Some (t, e) ->
    exists i, nth_error ps i = Some (Throw e) /\ t = s (k + i).
Proof.
  induction ps as [| p r IH]; intros k t e H; [discriminate |].
  cbn [first_rejection] in H.
  destruct p as [a | e0].
  - apply IH in H. destruct H as (i & Hi & Ht).
    exists (S i). split; [exact Hi | rewrite Ht; f_equal; lia].
  - destruct (first_rejection s (S k) r) as [[t' e'] |] eqn:Hr.
    + destruct (Nat.ltb t' (s k)).
      * inversion H; subst. apply IH in Hr. destruct Hr as (i & Hi & Ht).
        exists (S i). split; [exact Hi | rewrite Ht; f_equal; lia].
      * inversion H; subst. exists 0. split; [reflexivity | f_equal; lia].
    + inversion H; subst. exists 0. split; [reflexivity | f_equal; lia].
Qed.

Lemma first_rejection_none {A} (s : nat -> nat) (ps : list (Result A)) :
  forall k,
    first_rejection s k ps = None <->
    (forall e, ~ In (Throw e) ps).
Proof.
  induction ps as [| p r IH]; intros k; cbn [first_rejection].
  - split; [intros _ e [] | reflexivity].
  - destruct p as [a | e0].
    + rewrite IH. split.
      * intros H e [He | He]; [discriminate | exact (H e He)].
      * intros H e He. apply (H e). now right.
    + split.
      * intros H. destruct (first_rejection s (S k) r) as [[t' e'] |];
          [destruct (Nat.ltb t' (s k)) |]; discriminate.
      * intros H. exfalso. apply (H e0). now left.
Qed.

Lemma first_rejection_earliest {A} (s : nat -> nat)
    (ps : list (Result A)) :
  forall k j e,
    nth_error ps j = Some (Throw e) ->
    (forall i e', i <> j -> nth_error ps i = Some (Throw e') ->
                  s (k + j) < s (k + i)) ->
    first_rejection s k ps = Some (s (k + j), e).
Proof.
  induction ps as [| p r IH]; intros k j e Hj Hothers.
  - destruct j; discriminate.
  - cbn [first_rejection]. destruct j as [| j].
    + cbn in Hj. inversion Hj; subst p. rewrite Nat.add_0_r in *.
      destruct (first_rejection s (S k) r) as [[t' e'] |] eqn:Hr;
        [| reflexivity].
      apply first_rejection_origin in Hr. destruct Hr as (i & Hi & Ht).
      assert (Hlt : s k < s (k + S i)) by (apply (Hothers (S i) e'); auto).
      replace (k + S i) with (S k + i) in Hlt by lia. rewrite <- Ht in Hlt.
      destruct (Nat.ltb_spec t' (s k)); [lia | reflexivity].
    + cbn in Hj.
      assert (Hr : first_rejection s (S k) r = Some (s (S k + j), e)).
      { apply IH; [exact Hj |]. intros i e' Hne Hi.
        replace (S k + j) with (k + S j) by lia.
        replace (S k + i) with (k + S i) by lia.
        apply (Hothers (S i) e'); [lia | exact Hi]. }
      rewrite Hr. replace (S k + j) with (k + S j) by lia.
      destruct p as [a | e0]; [reflexivity |].
      assert (Hlt : s (k + S j) < s (k + 0))
        by (apply (Hothers 0 e0); [lia | reflexivity]).
      rewrite Nat.add_0_r in Hlt.
      destruct (Nat.ltb_spec (s (k + S j)) (s k)); [reflexivity | lia].
Qed.

(** A rejected promise makes [Promise.all] reject, with the reason of
    one of the rejected promises. *)
Lemma Promise_all_rejects {A} (s : nat -> nat) (ps : list (Result A)) e :
  In (Throw e) ps ->
  exists e', Promise_all s ps = Throw e' /\ In (Throw e') ps.
Proof.
  intros Hin. unfold Promise_all.
  destruct (first_rejection s 0 ps) as [[t e'] |] eqn:H.
  - exists e'. split; [reflexivity |].
    apply first_rejection_origin in H. destruct H as (i & Hi & _).
    eapply nth_error_In; eassumption.
  - exfalso. apply (proj1 (first_rejection_none s ps 0) H e Hin).
Qed.

Lemma Promise_all_reason {A} (s : nat -> nat) (ps : list (Result A)) e :
  Promise_all s ps = Throw e -> In (Throw e) ps.
Proof.
  unfold Promise_all.
  destruct (first_rejection s 0 ps) as [[t e'] |] eqn:H; [| discriminate].
  intros Heq. inversion Heq; subst.
  apply first_rejection_origin in H. destruct H as (i & Hi & _).
  eapply nth_error_In; eassumption.
Qed.

(** The promise that rejects before every other rejected one gives
    [Promise.all] its reason. *)
Lemma Promise_all_earliest {A} (s : nat -> nat) (ps : list (Result A))
    j e :
  nth_error ps j = Some (Throw e) ->
  (forall i e', i <> j -> nth_error ps i = Some (Throw e') -> s j < s i) ->
  Promise_all s ps = Throw e.
Proof.
  intros Hj Ho. unfold Promise_all.
  rewrite (first_rejection_earliest s ps 0 j e Hj Ho). reflexivity.
Qed.

Lemma fulfilled_all {A} (ps : list (Result A)) :
  (forall e, ~ In (Throw e) ps) -> map Ok (fulfilled ps) = ps.
Proof.
  induction ps as [| [a | e0] r IH]; intros H; cbn.
  - reflexivity.
  - f_equal. apply IH. intros e He. apply (H e). now right.
  - exfalso. apply (H e0). now left.
Qed.

(** When [Promise.all] fulfils, every promise did, in order. *)
Lemma Promise_all_fulfils {A} (s : nat -> nat) (ps : list (Result A)) rs :
  Promise_all s ps = Ok rs -> ps = map Ok rs.
Proof.
  unfold Promise_all.
  destruct (first_rejection s 0 ps) as [[t e'] |] eqn:H; [discriminate |].
  intros Heq. inversion Heq; subst. symmetry. apply fulfilled_all.
  apply (first_rejection_none s ps 0). exact H.
Qed.

(** ** The requests of a fetch *)

Section Trace.

Context {W : Web3}.
Variable connection : Connection.
Variable commitment : option Commitment.

Local Abbreviation core :=
  (fun batch => getMultipleAccountsCore connection batch commitment).
Local Abbreviation req := (request_of connection commitment).

Lemma core_run (batch : list PublicKey) (tr : list WireRequest) :
  getMultipleAccountsCore connection batch commitment tr =
  (match remote connection tr (req batch) with
   | inl msg => Throw (TransportError msg)
   | inr res => handle_response batch res
   end, tr ++ [req batch]).
Proof.
  unfold getMultipleAccountsCore, bind, _rpcRequest, ret, request_of.
  destruct (remote connection tr _); reflexivity.
Qed.

Lemma mapNet_trace (batches : list (list PublicKey)) :
  forall tr, snd (mapNet core batches tr) = tr ++ map req batches.
Proof.
  induction batches as [| b bs IH]; intros tr; cbn [mapNet map].
  - unfold ret. cbn. now rewrite app_nil_r.
  - unfold bind at 1. rewrite core_run.
    unfold bind at 1.
    destruct (mapNet _ bs (tr ++ [req b])) as [ys tr'] eqn:Hm.
    unfold ret. cbn [snd].
    pose proof (IH (tr ++ [req b])) as H. cbv beta in H.
    rewrite Hm in H. cbn [snd] in H. rewrite H, <- app_assoc.
    reflexivity.
Qed.

Lemma outcomes_cons (b : list PublicKey) bs tr :
  outcomes connection commitment tr (b :: bs) =
  fst (core b tr) :: outcomes connection commitment (tr ++ [req b]) bs.
Proof.
  unfold outcomes. cbn [mapNet]. unfold bind at 1.
  rewrite core_run.
  unfold bind at 1.
  destruct (mapNet _ bs (tr ++ [req b])) as [ys tr'].
  reflexivity.
Qed.

Lemma outcomes_nth (batches : list (list PublicKey)) :
  forall tr j b,
    nth_error batches j = Some b ->
    nth_error (outcomes connection commitment tr batches) j =
    Some (fst (core b (tr ++ map req (firstn j batches)))).
Proof.
  induction batches as [| b0 bs IH]; intros tr j b Hj.
  - destruct j; discriminate.
  - rewrite outcomes_cons. destruct j as [| j].
    + cbn in Hj. inversion Hj; subst. cbn. now rewrite app_nil_r.
    + cbn in Hj. cbn [nth_error firstn map].
      rewrite (IH _ _ _ Hj), <- app_assoc. reflexivity.
Qed.

Lemma outcomes_length (batches : list (list PublicKey)) :
  forall tr,
    List.length (outcomes connection commitment tr batches)
    = List.length batches.
Proof.
  induction batches as [| b bs IH]; intros tr.
  - reflexivity.
  - rewrite outcomes_cons. cbn. now rewrite IH.
Qed.

Lemma Promise_all_single {A} (s : nat -> nat) (p : Result (list A)) :
  (rs <-? Promise_all s [p] ;; Ok (List.concat rs)) = p.
Proof.
  destruct p as [a | e]; cbn; [now rewrite app_nil_r | reflexivity].
Qed.

(** A fetch issues the requests of its batches, all of them, and is
    settled by [Promise.all] over their outcomes. *)
Lemma fetch_run (s : nat -> nat) (publicKeys : list PublicKey) tr :
  getMultipleAccounts s connection publicKeys commitment tr =
  (rs <-? Promise_all s
            (outcomes connection commitment tr (batches_of publicKeys)) ;;
   Ok (List.concat rs),
   tr ++ map req (batches_of publicKeys)).
Proof.
  unfold getMultipleAccounts, batches_of.
  destruct (List.length publicKeys <=? GET_MULTIPLE_ACCOUNTS_LIMIT).
  - rewrite outcomes_cons. unfold outcomes. cbn [mapNet ret fst map].
    rewrite Promise_all_single.
    rewrite core_run. reflexivity.
  - unfold bind at 1. unfold outcomes.
    pose proof (mapNet_trace (chunks publicKeys GET_MULTIPLE_ACCOUNTS_LIMIT)
                             tr) as Ht.
    destruct (mapNet _ (chunks publicKeys GET_MULTIPLE_ACCOUNTS_LIMIT) tr)
      as [ps tr'].
    cbn [fst snd] in *. subst tr'. reflexivity.
Qed.

Lemma issued_fetch (s : nat -> nat) (publicKeys : list PublicKey) tr :
  issued (getMultipleAccounts s connection publicKeys commitment) tr
  = map req (batches_of publicKeys).
Proof.
  unfold issued. rewrite fetch_run. cbn [snd].
  rewrite skipn_app, skipn_all, Nat.sub_diag. reflexivity.
Qed.

Lemma request_keys_of (batch : list PublicKey) :
  request_keys (req batch) = map toBase58 batch.
Proof.
  unfold request_of, request_keys, request_args. cbn [params].
  destruct (effective_commitment connection commitment) as [c |];
    [destruct (truthy_string (Commitment_string c)) |]; reflexivity.
Qed.

(** Every commitment level is a truthy string. *)
Lemma Commitment_truthy (c : Commitment) :
  truthy_string (Commitment_string c) = true.
Proof. destruct c; reflexivity. Qed.

Lemma request_args_eq (batch : list PublicKey) :
  request_args connection batch commitment =
  ArgKeys (map toBase58 batch) ::
    match effective_commitment connection commitment with
    | Some c => [ArgConfig c]
    | None => []
    end.
Proof.
  unfold request_args.
  destruct (effective_commitment connection commitment) as [c |];
    [rewrite Commitment_truthy |]; reflexivity.
Qed.

Lemma batches_concat (publicKeys : list PublicKey) :
  List.concat (batches_of publicKeys) = publicKeys.
Proof.
  unfold batches_of.
  destruct (List.length publicKeys <=? GET_MULTIPLE_ACCOUNTS_LIMIT).
  - cbn. apply app_nil_r.
  - apply chunks_concat. unfold GET_MULTIPLE_ACCOUNTS_LIMIT. lia.
Qed.

Lemma batches_sizes (publicKeys : list PublicKey) :
  Forall (fun b => List.length b <= GET_MULTIPLE_ACCOUNTS_LIMIT)
         (batches_of publicKeys).
Proof.
  unfold batches_of.
  destruct (Nat.leb_spec (List.length publicKeys)
                         GET_MULTIPLE_ACCOUNTS_LIMIT) as [H | H].
  - constructor; [exact H | constructor].
  - eapply Forall_impl; [| apply chunks_sizes].
    + intros b Hb. apply Hb.
    + unfold GET_MULTIPLE_ACCOUNTS_LIMIT. lia.
Qed.

End Trace.

(** ** The decode loop *)

Section Decode.

Context {W : Web3}.

Lemma decode_entry_null rv accounts :
  decode_entry rv accounts None = Ok (accounts ++ [None]).
Proof. reflexivity. Qed.

Lemma decode_entry_present rv accounts (a : Raw.t) :
  decode_entry rv accounts (Some a) =
  if String.eqb (snd (Raw.data a)) "base64" then
    match PublicKey_new (Raw.owner a) with
    | inl msg => Throw (LibraryError msg)
    | inr pk => Ok (accounts ++ [Some (decoded a pk)])
    end
  else Throw AssertionError.
Proof.
  unfold decode_entry, truthy_object, assert, new_PublicKey, decoded.
  destruct (String.eqb _ _); cbn; [| reflexivity].
  destruct (PublicKey_new _); reflexivity.
Qed.

Lemma rejected_dec (a : Raw.t) :
  rejected a \/
  (snd (Raw.data a) = "base64" /\
   exists pk, PublicKey_new (Raw.owner a) = inr pk).
Proof.
  unfold rejected.
  destruct (String.eqb_spec (snd (Raw.data a)) "base64") as [He | Hne];
    [| now left; left].
  destruct (PublicKey_new (Raw.owner a)) as [msg | pk] eqn:Hpk.
  - left; right. now exists msg.
  - right. split; [exact He | now exists pk].
Qed.

Lemma decode_entry_rejected rv accounts (a : Raw.t) :
  rejected a ->
  exists e, decode_entry rv accounts (Some a) = Throw e /\
            e <> InvalidResponse.
Proof.
  intros [Htag | [msg Hmsg]]; rewrite decode_entry_present.
  - apply String.eqb_neq in Htag. rewrite Htag.
    exists AssertionError. split; [reflexivity | discriminate].
  - destruct (String.eqb _ _).
    + rewrite Hmsg. exists (LibraryError msg).
      split; [reflexivity | discriminate].
    + exists AssertionError. split; [reflexivity | discriminate].
Qed.

Lemma decode_entry_accepted rv accounts (a : Raw.t) pk :
  snd (Raw.data a) = "base64" ->
  PublicKey_new (Raw.owner a) = inr pk ->
  decode_entry rv accounts (Some a) = Ok (accounts ++ [Some (decoded a pk)]).
Proof.
  intros Htag Hpk. rewrite decode_entry_present, Hpk.
  apply String.eqb_eq in Htag. now rewrite Htag.
Qed.

(** One pass of the loop never takes the ["Invalid response"] exit. *)
Lemma decode_entry_valid rv accounts entry :
  decode_entry rv accounts entry <> Throw InvalidResponse.
Proof.
  destruct entry as [a |]; [| discriminate].
  rewrite decode_entry_present.
  destruct (String.eqb _ _); [| discriminate].
  destruct (PublicKey_new _); discriminate.
Qed.

Lemma for_of_ok rv (l : list (option Raw.t)) :
  forall accounts accounts',
    for_of (decode_entry rv) l accounts = Ok accounts' ->
    exists ds, accounts' = accounts ++ ds /\ decodes l ds.
Proof.
  induction l as [| entry l IH]; intros accounts accounts' H.
  - cbn in H. inversion H; subst. exists []. split;
      [now rewrite app_nil_r | constructor].
  - cbn [for_of] in H. destruct entry as [a |].
    + destruct (rejected_dec a) as [Hr | (Htag & pk & Hpk)].
      * destruct (decode_entry_rejected rv accounts a Hr) as (e & He & _).
        rewrite He in H. discriminate.
      * rewrite (decode_entry_accepted rv accounts a pk Htag Hpk) in H.
        apply IH in H. destruct H as (ds & Heq & Hds).
        exists (Some (decoded a pk) :: ds). split.
        -- rewrite Heq, <- app_assoc. reflexivity.
        -- now constructor.
    + rewrite decode_entry_null in H.
      apply IH in H. destruct H as (ds & Heq & Hds).
      exists (None :: ds). split.
      * rewrite Heq, <- app_assoc. reflexivity.
      * now constructor.
Qed.

Lemma for_of_throw rv (l : list (option Raw.t)) :
  forall accounts e,
    for_of (decode_entry rv) l accounts = Throw e ->
    e <> InvalidResponse /\
    exists a, In (Some a) l /\ rejected a.
Proof.
  induction l as [| entry l IH]; intros accounts e H.
  - discriminate.
  - cbn [for_of] in H.
    destruct (decode_entry rv accounts entry) as [acc' | e'] eqn:Hd.
    + apply IH in H. destruct H as (Hne & a & Hin & Hr).
      split; [exact Hne |]. exists a. split; [now right | exact Hr].
    + inversion H; subst e'. split.
      * intros ->. exact (decode_entry_valid _ _ _ Hd).
      * destruct entry as [a |]; [| discriminate].
        exists a. split; [now left |].
        destruct (rejected_dec a) as [Hr | (Htag & pk & Hpk)];
          [exact Hr |].
        rewrite (decode_entry_accepted rv accounts a pk Htag Hpk) in Hd.
        discriminate.
Qed.

Lemma for_of_rejected rv (l : list (option Raw.t)) a :
  In (Some a) l -> rejected a ->
  forall accounts, exists e, for_of (decode_entry rv) l accounts = Throw e.
Proof.
  intros Hin Hr. induction l as [| entry l IH]; intros accounts.
  - destruct Hin.
  - cbn [for_of].
    destruct (decode_entry rv accounts entry) as [acc' | e'] eqn:Hd.
    + destruct Hin as [-> | Hin]; [| now apply IH].
      destruct (decode_entry_rejected rv accounts a Hr) as (e & He & _).
      rewrite He in Hd. discriminate.
    + now exists e'.
Qed.

Lemma decodes_length raw ds :
  decodes raw ds -> List.length ds = List.length raw.
Proof. induction 1; cbn; congruence. Qed.

End Decode.

(** ** Re-assembly *)

Section Assemble.

Context {W : Web3}.

Lemma map_idx_from_length {A B} (f : A -> nat -> B) (l : list A) :
  forall i, List.length (map_idx_from f i l) = List.length l.
Proof. induction l as [| x r IH]; intros i; cbn; [| rewrite IH]; auto. Qed.

Lemma pair_with_keys_length (keys : list PublicKey) ds :
  List.length (pair_with_keys keys ds) = List.length ds.
Proof. apply map_idx_from_length. Qed.

Lemma pair_with_keys_paired raw ds :
  decodes raw ds ->
  forall pre ks,
    List.length ks = List.length raw ->
    paired ks raw
      (map_idx_from
         (fun account idx =>
            match account with
            | None => None
            | Some account =>
                Some {| publicKey := nth_error (pre ++ ks) idx;
                        account := account |}
            end) (List.length pre) ds).
Proof.
  induction 1 as [| rs ds Hd IH | a rs pk ds Hpk Htag Hd IH];
    intros pre ks Hlen.
  - destruct ks; [constructor | discriminate].
  - destruct ks as [| k ks]; [discriminate |].
    cbn [map_idx_from]. constructor.
    specialize (IH (pre ++ [k]) ks).
    rewrite <- app_assoc, length_app, Nat.add_1_r in IH.
    apply IH. cbn in Hlen. lia.
  - destruct ks as [| k ks]; [discriminate |].
    cbn [map_idx_from].
    rewrite nth_error_app2, Nat.sub_diag by lia. cbn [nth_error].
    constructor; [exact Hpk | exact Htag |].
    specialize (IH (pre ++ [k]) ks).
    rewrite <- app_assoc, length_app, Nat.add_1_r in IH.
    apply IH. cbn in Hlen. lia.
Qed.

Lemma handle_response_ok (keys : list PublicKey) res out :
  handle_response keys res = Ok out ->
  error res = None /\
  exists rv ds,
    result res = Some rv /\ decodes (value rv) ds /\
    out = pair_with_keys keys ds.
Proof.
  unfold handle_response.
  destruct (error res); [discriminate |].
  destruct (result res) as [rv |]; [| discriminate].
  destruct (for_of (decode_entry (value rv)) (value rv) []) as [ds | e]
    eqn:Hf; [| discriminate].
  cbn. intros H. inversion H; subst. split; [reflexivity |].
  apply for_of_ok in Hf. destruct Hf as (ds' & -> & Hds).
  exists rv, ds'. auto.
Qed.

Lemma handle_response_paired (keys : list PublicKey) res rv out :
  handle_response keys res = Ok out ->
  result res = Some rv ->
  List.length (value rv) = List.length keys ->
  paired keys (value rv) out.
Proof.
  intros H Hrv Hlen.
  apply handle_response_ok in H.
  destruct H as (_ & rv' & ds & Hrv' & Hds & ->).
  rewrite Hrv in Hrv'. inversion Hrv'; subst rv'.
  apply (pair_with_keys_paired _ _ Hds [] keys). auto.
Qed.

Lemma handle_response_length (keys : list PublicKey) res out :
  handle_response keys res = Ok out ->
  List.length out = List.length (entries (inr res)).
Proof.
  intros H. apply handle_response_ok in H.
  destruct H as (_ & rv & ds & Hrv & Hds & ->).
  cbn [entries]. rewrite Hrv, pair_with_keys_length.
  now apply decodes_length.
Qed.

Lemma paired_app k1 r1 o1 k2 r2 o2 :
  paired k1 r1 o1 -> paired k2 r2 o2 ->
  paired (k1 ++ k2) (r1 ++ r2) (o1 ++ o2).
Proof. induction 1; intros H2; cbn; [exact H2 | |]; constructor; auto. Qed.



Variable connection : Connection.
Variable commitment : option Commitment.

Lemma core_ok (batch : list PublicKey) tr out :
  fst (getMultipleAccountsCore connection batch commitment tr) = Ok out ->
  exists res,
    remote connection tr (request_of connection commitment batch)
    = inr res /\
    handle_response batch res = Ok out.
Proof.
  rewrite core_run. cbn [fst].
  destruct (remote connection tr _) as [msg | res]; [discriminate |].
  intros H. now exists res.
Qed.

(** The slots of a fulfilled fetch are as many as the entries the
    remote returned. *)
Lemma outcomes_length_raw (batches : list (list PublicKey)) :
  forall tr rs,
    outcomes connection commitment tr batches = map Ok rs ->
    List.length (List.concat rs)
    = List.length
        (raw_entries connection tr
           (map (request_of connection commitment) batches)).
Proof.
  induction batches as [| b bs IH]; intros tr rs H.
  - destruct rs; [reflexivity | discriminate].
  - rewrite outcomes_cons in H. destruct rs as [| r rs]; [discriminate |].
    cbn [map] in H. inversion H as [[H1 H2]].
    apply core_ok in H1. destruct H1 as (res & Hres & Hh).
    cbn [map raw_entries List.concat]. rewrite !length_app.
    rewrite (IH _ _ H2), Hres.
    now rewrite (handle_response_length _ _ _ Hh).
Qed.

(** When the remote answers with one entry per identifier, the slots
    of a fulfilled fetch face the identifiers position by position. *)
Lemma outcomes_paired (batches : list (list PublicKey)) :
  answers_each_key connection ->
  forall tr rs,
    outcomes connection commitment tr batches = map Ok rs ->
    paired (List.concat batches)
           (raw_entries connection tr
              (map (request_of connection commitment) batches))
           (List.concat rs).
Proof.
  intros Hsized.
  induction batches as [| b bs IH]; intros tr rs H.
  - destruct rs; [constructor | discriminate].
  - rewrite outcomes_cons in H. destruct rs as [| r rs]; [discriminate |].
    cbn [map] in H. inversion H as [[H1 H2]].
    apply core_ok in H1. destruct H1 as (res & Hres & Hh).
    cbn [map raw_entries List.concat].
    apply paired_app; [| apply (IH _ _ H2)].
    rewrite Hres. cbn [entries].
    destruct (handle_response_ok _ _ _ Hh) as (_ & rv & ds & Hrv & _).
    rewrite Hrv. apply (handle_response_paired _ _ _ _ Hh Hrv).
    rewrite (Hsized _ _ _ _ Hres Hrv), request_keys_of, length_map.
    reflexivity.
Qed.

End Assemble.

(** ** Strings *)

Lemma append_assoc' (a b c : string) :
  ((a ++ b) ++ c = a ++ (b ++ c))%string.
Proof. induction a as [| x a IH]; cbn; [| rewrite IH]; reflexivity. Qed.

Lemma append_empty_r (a : string) : (a ++ "" = a)%string.
Proof. induction a as [| x a IH]; cbn; [| rewrite IH]; reflexivity. Qed.

Lemma substring_prefix (sub post : string) :
  substring 0 (String.length sub) (sub ++ post) = sub.
Proof.
  induction sub as [| x sub IH]; cbn.
  - destruct post; reflexivity.
  - now rewrite IH.
Qed.

Lemma substring_middle (pre sub post : string) :
  substring (String.length pre) (String.length sub) (pre ++ sub ++ post)
  = sub.
Proof.
  induction pre as [| x pre IH]; cbn.
  - apply substring_prefix.
  - exact IH.
Qed.

(** [containsb] decides [contains] for a non-empty needle. *)
Lemma contains_containsb (sub s : string) :
  sub <> "" -> contains sub s -> containsb sub s = true.
Proof.
  intros Hne (pre & post & ->). unfold containsb.
  destruct (index 0 sub (pre ++ sub ++ post)) eqn:Hi; [reflexivity |].
  exfalso.
  apply (index_correct3 0 (String.length pre) _ _ Hi Hne (Nat.le_0_l _)).
  apply substring_middle.
Qed.

Lemma contains_suffix (pre sub : string) : contains sub (pre ++ sub).
Proof. exists pre, "". now rewrite append_empty_r. Qed.

Lemma contains_inside (pre sub post : string) :
  contains sub (pre ++ sub ++ post).
Proof. now exists pre, post. Qed.

(** ** The shape of the chunks *)

Lemma chunks_fuel_shape {A B} (size : nat) :
  forall fuel (l : list A) (l' : list B),
    List.length l = List.length l' ->
    map (@List.length A) (chunks_fuel fuel l size)
    = map (@List.length B) (chunks_fuel fuel l' size).
Proof.
  induction fuel as [| fuel IH]; intros l l' Hlen; [reflexivity |].
  destruct l as [| x r], l' as [| x' r']; try discriminate;
    [reflexivity |].
  cbn [chunks_fuel map]. f_equal.
  - rewrite !length_firstn. now rewrite Hlen.
  - apply IH. rewrite !length_skipn. now rewrite Hlen.
Qed.

Lemma chunks_shape {A} (l : list A) (size : nat) :
  map (@List.length A) (chunks l size)
  = map (@List.length unit) (chunks (repeat tt (List.length l)) size).
Proof.
  unfold chunks. rewrite repeat_length.
  apply chunks_fuel_shape. now rewrite repeat_length.
Qed.

(* ================================================================== *)
(** * The claims *)
(* ================================================================== *)

Section Claims.

Context {W : Web3}.

(** C5 (as amended).  A fetch of [L >= 1] identifiers issues
    [ceil(L/99)] requests, and a fetch of none issues one; each request
    carries at most 99 identifiers; the identifier lists of the
    requests, concatenated in order, are the base-58 strings of the
    input; and 150 identifiers go out as two requests of 99 and 51. *)
Theorem requests_cover_input (settled_at : nat -> nat)
    (connection : Connection) (publicKeys : list PublicKey)
    (commitment : option Commitment) (tr : list WireRequest) :
  let reqs :=
    issued (getMultipleAccounts settled_at connection publicKeys
                                commitment) tr in
  List.length reqs
  = (if List.length publicKeys =? 0 then 1
     else (List.length publicKeys + 98) / 99) /\
  Forall (fun r => List.length (request_keys r) <= 99) reqs /\
  List.concat (map request_keys reqs) = map toBase58 publicKeys /\
  (List.length publicKeys = 150 ->
   map (fun r => List.length (request_keys r)) reqs = [99; 51]).
Proof.
  cbv zeta. rewrite issued_fetch.
  repeat split.
  - rewrite length_map. unfold batches_of, GET_MULTIPLE_ACCOUNTS_LIMIT.
    destruct (Nat.leb_spec (List.length publicKeys) 99) as [H | H].
    + destruct (Nat.eqb_spec (List.length publicKeys) 0) as [H0 | H0];
        [reflexivity |].
      cbn [List.length].
      apply (Nat.div_unique _ _ 1 (List.length publicKeys - 1)); lia.
    + destruct (Nat.eqb_spec (List.length publicKeys) 0); [lia |].
      rewrite chunks_length by lia. f_equal. lia.
  - apply Forall_map.
    eapply Forall_impl; [| apply batches_sizes].
    intros b Hb. rewrite request_keys_of, length_map. exact Hb.
  - rewrite map_map.
    rewrite (map_ext _ (map toBase58))
      by (intros b; apply request_keys_of).
    rewrite <- concat_map. now rewrite batches_concat.
  - intros H150. rewrite map_map.
    rewrite (map_ext _ (fun b => List.length b))
      by (intros b; now rewrite request_keys_of, length_map).
    unfold batches_of, GET_MULTIPLE_ACCOUNTS_LIMIT.
    rewrite H150. cbn [Nat.leb].
    rewrite chunks_shape, H150. vm_compute. reflexivity.
Qed.

(** C8.  The requests of a fetch are, chunk by chunk, the method
    ["getMultipleAccounts"] with the array of the chunk's base-58
    identifiers as first parameter, followed by [{commitment}] exactly
    when a commitment level was resolved. *)
Theorem wire_request_shape (settled_at : nat -> nat)
    (connection : Connection) (publicKeys : list PublicKey)
    (commitmentOverride : option Commitment) (tr : list WireRequest) :
  issued (getMultipleAccounts settled_at connection publicKeys
                              commitmentOverride) tr
  = map (fun chunk =>
           {| method := "getMultipleAccounts";
              params :=
                ArgKeys (map toBase58 chunk) ::
                match effective_commitment connection commitmentOverride
                with
                | Some level => [ArgConfig level]
                | None => []
                end |})
        (batches_of publicKeys).
Proof.
  rewrite issued_fetch. apply map_ext. intros chunk.
  unfold request_of. now rewrite request_args_eq.
Qed.

(** C10.  A fetch of at most 99 identifiers, none included, issues
    exactly one request, which carries all of them. *)
Theorem short_list_single_request (settled_at : nat -> nat)
    (connection : Connection) (publicKeys : list PublicKey)
    (commitment : option Commitment) (tr : list WireRequest) :
  List.length publicKeys <= 99 ->
  exists r,
    issued (getMultipleAccounts settled_at connection publicKeys
                                commitment) tr = [r] /\
    method r = "getMultipleAccounts" /\
    request_keys r = map toBase58 publicKeys.
Proof.
  intros Hle. rewrite issued_fetch. unfold batches_of.
  apply Nat.leb_le in Hle. unfold GET_MULTIPLE_ACCOUNTS_LIMIT.
  rewrite Hle. cbn [map].
  eexists. split; [reflexivity |]. split; [reflexivity |].
  apply request_keys_of.
Qed.

(** C7.  Every request of a fetch carries the per-call commitment when
    one is given, otherwise the connection's default when that is set,
    and no commitment parameter at all when neither is. *)
Theorem commitment_resolution (settled_at : nat -> nat)
    (connection : Connection) (publicKeys : list PublicKey)
    (commitmentOverride : option Commitment) (tr : list WireRequest)
    (r : WireRequest) :
  In r (issued (getMultipleAccounts settled_at connection publicKeys
                                    commitmentOverride) tr) ->
  match commitmentOverride, commitment connection with
  | Some override, _ =>
      params r = [ArgKeys (request_keys r); ArgConfig override]
  | None, Some default =>
      params r = [ArgKeys (request_keys r); ArgConfig default]
  | None, None =>
      params r = [ArgKeys (request_keys r)]
  end.
Proof.
  rewrite issued_fetch. intros Hin.
  apply in_map_iff in Hin. destruct Hin as (chunk & <- & _).
  rewrite request_keys_of. unfold request_of. cbn [params].
  rewrite request_args_eq. unfold effective_commitment.
  destruct commitmentOverride as [override |];
    [| destruct (commitment connection) as [default |]]; reflexivity.
Qed.

End Claims.

(** ** Failing chunks *)

Section Failures.

Context {W : Web3}.
Variable connection : Connection.
Variable commitment : option Commitment.

Lemma handle_response_valid (keys : list PublicKey) res :
  handle_response keys res <> Throw InvalidResponse.
Proof.
  unfold handle_response.
  destruct (error res); [discriminate |].
  destruct (result res) as [rv |]; [| discriminate].
  destruct (for_of (decode_entry (value rv)) (value rv) []) as [ds | e]
    eqn:Hf; cbn; [discriminate |].
  apply for_of_throw in Hf. destruct Hf as [Hne _]. congruence.
Qed.

Lemma core_valid (batch : list PublicKey) tr :
  fst (getMultipleAccountsCore connection batch commitment tr)
  <> Throw InvalidResponse.
Proof.
  rewrite core_run. cbn [fst].
  destruct (remote connection tr _); [discriminate |].
  apply handle_response_valid.
Qed.

Lemma outcomes_In (batches : list (list PublicKey)) :
  forall tr o,
    In o (outcomes connection commitment tr batches) ->
    exists b tr',
      o = fst (getMultipleAccountsCore connection b commitment tr').
Proof.
  induction batches as [| b bs IH]; intros tr o Hin.
  - destruct Hin.
  - rewrite outcomes_cons in Hin. destruct Hin as [<- | Hin].
    + now exists b, tr.
    + now apply IH in Hin.
Qed.

(** The promise of chunk [j] settles to what [handle_response] makes
    of the remote's answer to its request. *)
Lemma chunk_outcome (keys : list PublicKey) tr j chunk res :
  nth_error (batches_of keys) j = Some chunk ->
  remote connection
         (tr ++ map (request_of connection commitment)
                    (firstn j (batches_of keys)))
         (request_of connection commitment chunk) = inr res ->
  nth_error (outcomes connection commitment tr (batches_of keys)) j
  = Some (handle_response chunk res).
Proof.
  intros Hj Hres.
  rewrite (outcomes_nth _ _ _ _ _ _ Hj), core_run. cbn [fst].
  now rewrite Hres.
Qed.

(** A chunk whose promise rejects makes the fetch reject. *)
Lemma fetch_rejects (s : nat -> nat) (keys : list PublicKey) tr j e :
  nth_error (outcomes connection commitment tr (batches_of keys)) j
  = Some (Throw e) ->
  exists e', fst (getMultipleAccounts s connection keys commitment tr)
             = Throw e'.
Proof.
  intros Hj. rewrite fetch_run. cbn [fst].
  apply nth_error_In in Hj.
  destruct (Promise_all_rejects s _ _ Hj) as (e' & He' & _).
  rewrite He'. now exists e'.
Qed.

(** The chunk that rejects before every other rejecting chunk gives
    the fetch its error. *)
Lemma fetch_rejects_earliest (s : nat -> nat) (keys : list PublicKey)
    tr j e :
  nth_error (outcomes connection commitment tr (batches_of keys)) j
  = Some (Throw e) ->
  (forall i e', i <> j ->
     nth_error (outcomes connection commitment tr (batches_of keys)) i
     = Some (Throw e') -> s j < s i) ->
  fst (getMultipleAccounts s connection keys commitment tr) = Throw e.
Proof.
  intros Hj Ho. rewrite fetch_run. cbn [fst].
  now rewrite (Promise_all_earliest s _ j e Hj Ho).
Qed.

Lemma fetch_fulfils (s : nat -> nat) (keys : list PublicKey) tr out :
  fst (getMultipleAccounts s connection keys commitment tr) = Ok out ->
  exists rs,
    outcomes connection commitment tr (batches_of keys) = map Ok rs /\
    out = List.concat rs.
Proof.
  rewrite fetch_run. cbn [fst].
  destruct (Promise_all s _) as [rs | e] eqn:Hp; [| discriminate].
  cbn. intros H. inversion H; subst.
  exists rs. split; [now apply Promise_all_fulfils in Hp | reflexivity].
Qed.

Lemma fetch_valid (s : nat -> nat) (keys : list PublicKey) tr :
  fst (getMultipleAccounts s connection keys commitment tr)
  <> Throw InvalidResponse.
Proof.
  rewrite fetch_run. cbn [fst].
  destruct (Promise_all s _) as [rs | e] eqn:Hp; [discriminate |].
  cbn. intros H. inversion H; subst e.
  apply Promise_all_reason, outcomes_In in Hp.
  destruct Hp as (b & tr' & Hb).
  symmetry in Hb. exact (core_valid _ _ Hb).
Qed.

End Failures.

Section FailureClaims.

Context {W : Web3}.

(** C6.  A present entry that the loop accepts is pushed as the record
    whose data is the base64 decoding of the entry's payload, whose
    owner is the identifier the entry's owner string parses to, and
    whose lamports and executable flag are those of the entry; and the
    base64 decoding of the encoding of a byte sequence is that
    sequence. *)
Theorem decoded_account_fields
    (result_value : list (option Raw.t))
    (accounts accounts' : list (option AccountInfo)) (entry : Raw.t) :
  decode_entry result_value accounts (Some entry) = Ok accounts' ->
  exists pk,
    PublicKey_new (Raw.owner entry) = inr pk /\
    accounts' =
      accounts ++
      [Some {| executable := Raw.executable entry;
               owner := pk;
               lamports := Raw.lamports entry;
               data := Base64.decode (fst (Raw.data entry)) |}] /\
    forall bytes,
      fst (Raw.data entry) = Base64.encode bytes ->
      Base64.decode (fst (Raw.data entry)) = bytes.
Proof.
  intros H.
  destruct (rejected_dec entry) as [Hr | (Htag & pk & Hpk)].
  - destruct (decode_entry_rejected result_value accounts entry Hr)
      as (e & He & _).
    rewrite He in H. discriminate.
  - rewrite (decode_entry_accepted _ _ _ _ Htag Hpk) in H.
    inversion H; subst. exists pk. split; [exact Hpk |].
    split; [reflexivity |].
    intros bytes ->. apply base64_roundtrip.
Qed.

(** C4 (as amended).  The decoding of a chunk's response fails exactly
    when the envelope has no result, or a present entry carries an
    encoding tag other than ["base64"] or an owner string that the
    [PublicKey] constructor rejects; such a failure makes the whole
    fetch fail; and a response that decodes yields one slot per entry,
    none skipped. *)
Theorem decode_failure_causes (settled_at : nat -> nat)
    (connection : Connection) (publicKeys : list PublicKey)
    (commitment : option Commitment) (tr : list WireRequest)
    (j : nat) (chunk : list PublicKey) (res : RpcResponse) :
  nth_error (batches_of publicKeys) j = Some chunk ->
  remote connection
         (tr ++ map (request_of connection commitment)
                    (firstn j (batches_of publicKeys)))
         (request_of connection commitment chunk) = inr res ->
  error res = None ->
  ((exists e, handle_response chunk res = Throw e) <->
   (result res = None \/
    exists entry,
      In (Some entry) (entries (inr res)) /\
      (snd (Raw.data entry) <> "base64" \/
       exists msg, PublicKey_new (Raw.owner entry) = inl msg))) /\
  ((exists e, handle_response chunk res = Throw e) ->
   exists e, fst (getMultipleAccounts settled_at connection publicKeys
                                      commitment tr) = Throw e) /\
  (forall out,
      handle_response chunk res = Ok out ->
      List.length out = List.length (entries (inr res))).
Proof.
  intros Hj Hres Herr. split; [| split].
  - unfold handle_response. rewrite Herr. cbn [entries].
    destruct (result res) as [rv |].
    + split.
      * intros [e He]. right.
        destruct (for_of (decode_entry (value rv)) (value rv) [])
          as [ds | e'] eqn:Hf; [discriminate |].
        apply for_of_throw in Hf. destruct Hf as (_ & a & Hin & Hr).
        now exists a.
      * intros [Hnone | (a & Hin & Hr)]; [discriminate |].
        destruct (for_of_rejected (value rv) (value rv) a Hin Hr [])
          as (e & He).
        rewrite He. now exists e.
    + split; [now left | intros _; now exists AssertionError].
  - intros [e He].
    apply (fetch_rejects connection commitment settled_at publicKeys
                         tr j e).
    rewrite (chunk_outcome _ _ _ _ _ _ _ Hj Hres). now rewrite He.
  - intros out. apply handle_response_length.
Qed.

(** C2 (as amended).  When the remote answers a chunk's request with
    an error object, the fetch fails, whatever the other chunks
    returned; the error it fails with is that of the chunk that fails
    first, so when no other chunk fails before this one the message
    contains the remote's error text and the [", "]-joined base-58
    identifiers of this chunk. *)
Theorem remote_error_surfaces (settled_at : nat -> nat)
    (connection : Connection) (publicKeys : list PublicKey)
    (commitment : option Commitment) (tr : list WireRequest)
    (j : nat) (chunk : list PublicKey) (res : RpcResponse)
    (err : RpcError) :
  nth_error (batches_of publicKeys) j = Some chunk ->
  remote connection
         (tr ++ map (request_of connection commitment)
                    (firstn j (batches_of publicKeys)))
         (request_of connection commitment chunk) = inr res ->
  error res = Some err ->
  (exists e, fst (getMultipleAccounts settled_at connection publicKeys
                                      commitment tr) = Throw e) /\
  ((forall i e',
       i <> j ->
       nth_error (outcomes connection commitment tr
                           (batches_of publicKeys)) i
       = Some (Throw e') ->
       settled_at j < settled_at i) ->
   exists msg,
     fst (getMultipleAccounts settled_at connection publicKeys
                              commitment tr) = Throw (FetchError msg) /\
     contains (message err) msg /\
     contains (String.concat ", " (map toBase58 chunk)) msg).
Proof.
  intros Hj Hres Herr.
  pose proof (chunk_outcome _ _ _ _ _ _ _ Hj Hres) as Ho.
  unfold handle_response in Ho. rewrite Herr in Ho.
  split.
  - eapply fetch_rejects. exact Ho.
  - intros Hfirst. eexists. split; [| split].
    + eapply fetch_rejects_earliest; [exact Ho | exact Hfirst].
    + rewrite <- !append_assoc'. apply contains_suffix.
    + apply contains_inside.
Qed.

End FailureClaims.

(* ================================================================== *)
(** * The claims on concrete fetches *)
(* ================================================================== *)



(** C3 as stated fails: two entries decoded for one identifier, and the
    fetch returns them instead of failing. *)
Lemma count_mismatch_not_checked :
  List.length
    (raw_entries (Sample.fixed [None; None]) []
       (issued (getMultipleAccounts (W := Bs58.web3) Sample.together
                  (Sample.fixed [None; None]) (Bs58.keys 1) None) []))
  <> List.length (Bs58.keys 1) /\
  fst (getMultipleAccounts (W := Bs58.web3) Sample.together
         (Sample.fixed [None; None]) (Bs58.keys 1) None [])
  = Ok [None; None].
Proof. split; [vm_compute; discriminate | vm_compute; reflexivity]. Qed.

(** C5, on 150 identifiers. *)
Lemma requests_cover_input_witness :
  List.length (Bs58.keys 150) = 150 /\
  map (fun r => List.length (request_keys r))
      (issued (getMultipleAccounts (W := Bs58.web3) Sample.together
                 Sample.ledger3 (Bs58.keys 150) None) [])
  = [99; 51].
Proof.
  assert (H : List.length (Bs58.keys 150) = 150) by reflexivity.
  split; [exact H |].
  exact (proj2 (proj2 (proj2
           (requests_cover_input (W := Bs58.web3) Sample.together
              Sample.ledger3 (Bs58.keys 150) None []))) H).
Defined.

(** C5 as stated fails on the empty list: [ceil(0/99)] is 0, and one
    request goes out. *)
Lemma empty_list_one_request :
  (List.length (@nil Bs58.Key) + 98) / 99 = 0 /\
  issued (getMultipleAccounts (W := Bs58.web3) Sample.together
            Sample.ledger3 [] None) []
  = [{| method := "getMultipleAccounts"; params := [ArgKeys []] |}].
Proof. split; reflexivity. Qed.

(** C10, on the empty list. *)
Lemma short_list_single_request_witness :
  List.length (@nil Bs58.Key) <= 99 /\
  exists r,
    issued (getMultipleAccounts (W := Bs58.web3) Sample.together
              Sample.ledger3 [] None) [] = [r] /\
    method r = "getMultipleAccounts" /\
    request_keys r = map (toBase58 (Web3 := Bs58.web3)) [].
Proof.
  assert (H : List.length (@nil Bs58.Key) <= 99) by (simpl; lia).
  split; [exact H |].
  exact (short_list_single_request (W := Bs58.web3) Sample.together
           Sample.ledger3 [] None [] H).
Defined.

(** C7, with an override on a connection that has a default. *)
Lemma commitment_resolution_witness :
  In {| method := "getMultipleAccounts";
        params := [ArgKeys ["11111111111111111111111111111112"];
                   ArgConfig finalized] |}
     (issued (getMultipleAccounts (W := Bs58.web3) Sample.together
                (Sample.boom_on_single Sample.all_absent)
                (Bs58.keys 1) (Some finalized)) []) /\
  [ArgKeys ["11111111111111111111111111111112"]; ArgConfig finalized]
  = [ArgKeys ["11111111111111111111111111111112"]; ArgConfig finalized].
Proof.
  assert (H : In {| method := "getMultipleAccounts";
                    params := [ArgKeys ["11111111111111111111111111111112"];
                               ArgConfig finalized] |}
                 (issued (getMultipleAccounts (W := Bs58.web3)
                            Sample.together
                            (Sample.boom_on_single Sample.all_absent)
                            (Bs58.keys 1) (Some finalized)) []))
    by (vm_compute; left; reflexivity).
  split; [exact H |].
  exact (commitment_resolution (W := Bs58.web3) Sample.together
           (Sample.boom_on_single Sample.all_absent) (Bs58.keys 1)
           (Some finalized) [] _ H).
Defined.

(** C6, on the sample entry. *)
Lemma decoded_account_fields_witness :
  decode_entry (W := Bs58.web3) [Some Sample.entry] []
               (Some Sample.entry) = Ok [Some Sample.hello] /\
  exists pk,
    PublicKey_new (Web3 := Bs58.web3) (Raw.owner Sample.entry) = inr pk /\
    [Some Sample.hello] =
      [] ++
      [Some (@Build_AccountInfo Bs58.web3
               (Raw.executable Sample.entry) pk
               (Raw.lamports Sample.entry)
               (Base64.decode (fst (Raw.data Sample.entry))))] /\
    forall bytes,
      fst (Raw.data Sample.entry) = Base64.encode bytes ->
      Base64.decode (fst (Raw.data Sample.entry)) = bytes.
Proof.
  assert (H : decode_entry (W := Bs58.web3) [Some Sample.entry] []
                           (Some Sample.entry) = Ok [Some Sample.hello])
    by (vm_compute; reflexivity).
  split; [exact H |].
  exact (decoded_account_fields (W := Bs58.web3) [Some Sample.entry] []
           [Some Sample.hello] Sample.entry H).
Defined.

(** C4, on an entry tagged ["base58"]. *)
Lemma decode_failure_causes_witness :
  nth_error (batches_of (W := Bs58.web3) (Bs58.keys 1)) 0
  = Some (Bs58.keys 1) /\
  remote (Sample.fixed [Some Sample.entry_base58])
         ([] ++ map (request_of (W := Bs58.web3)
                       (Sample.fixed [Some Sample.entry_base58]) None)
                    (firstn 0 (batches_of (W := Bs58.web3) (Bs58.keys 1))))
         (request_of (W := Bs58.web3)
            (Sample.fixed [Some Sample.entry_base58]) None (Bs58.keys 1))
  = inr (Sample.envelope [Some Sample.entry_base58]) /\
  error (Sample.envelope [Some Sample.entry_base58]) = None /\
  handle_response (W := Bs58.web3) (Bs58.keys 1)
                  (Sample.envelope [Some Sample.entry_base58])
  = Throw AssertionError /\
  exists e,
    fst (getMultipleAccounts (W := Bs58.web3) Sample.together
           (Sample.fixed [Some Sample.entry_base58]) (Bs58.keys 1) None [])
    = Throw e.
Proof.
  pose proof (decode_failure_causes (W := Bs58.web3) Sample.together
                (Sample.fixed [Some Sample.entry_base58]) (Bs58.keys 1)
                None [] 0 (Bs58.keys 1)
                (Sample.envelope [Some Sample.entry_base58])
                eq_refl eq_refl eq_refl) as (_ & Habort & _).
  repeat split.
  apply Habort. exists AssertionError. reflexivity.
Defined.

(** C4 as stated fails: an entry tagged ["base64"] in an envelope that
    has its result, and decoding fails on the owner string. *)
Lemma owner_rejected_by_constructor :
  handle_response (W := Bs58.web3) (Bs58.keys 1)
                  (Sample.envelope [Some Sample.entry_bad_owner])
  = Throw (LibraryError "Non-base58 character") /\
  fst (getMultipleAccounts (W := Bs58.web3) Sample.together
         (Sample.fixed [Some Sample.entry_bad_owner]) (Bs58.keys 1) None [])
  = Throw (LibraryError "Non-base58 character") /\
  result (Sample.envelope [Some Sample.entry_bad_owner]) <> None /\
  forall entry,
    In (Some entry)
       (entries (inr (Sample.envelope [Some Sample.entry_bad_owner]))) ->
    snd (Raw.data entry) = "base64".
Proof.
  repeat split; try discriminate.
  intros entry [H | []]. inversion H. reflexivity.
Qed.

(** C2, on 100 identifiers whose second chunk the remote refuses. *)
Lemma remote_error_surfaces_witness :
  nth_error (batches_of (W := Bs58.web3) (Bs58.keys 100)) 1
  = Some [Bs58.key 100] /\
  remote (Sample.boom_on_single Sample.all_absent)
         ([] ++ map (request_of (W := Bs58.web3)
                       (Sample.boom_on_single Sample.all_absent) None)
                    (firstn 1 (batches_of (W := Bs58.web3) (Bs58.keys 100))))
         (request_of (W := Bs58.web3)
            (Sample.boom_on_single Sample.all_absent) None [Bs58.key 100])
  = Sample.fail "boom" /\
  (forall i e',
      i <> 1 ->
      nth_error (outcomes (W := Bs58.web3)
                   (Sample.boom_on_single Sample.all_absent) None []
                   (batches_of (W := Bs58.web3) (Bs58.keys 100))) i
      = Some (Throw e') ->
      Sample.together 1 < Sample.together i) /\
  exists msg,
    fst (getMultipleAccounts (W := Bs58.web3) Sample.together
           (Sample.boom_on_single Sample.all_absent) (Bs58.keys 100) None [])
    = Throw (FetchError msg) /\
    contains "boom" msg /\
    contains (String.concat ", "
                (map (toBase58 (Web3 := Bs58.web3)) [Bs58.key 100])) msg.
Proof.
  assert (H1 : nth_error (batches_of (W := Bs58.web3) (Bs58.keys 100)) 1
               = Some [Bs58.key 100]) by (vm_compute; reflexivity).
  assert (H2 : remote (Sample.boom_on_single Sample.all_absent)
                 ([] ++ map (request_of (W := Bs58.web3)
                               (Sample.boom_on_single Sample.all_absent) None)
                            (firstn 1 (batches_of (W := Bs58.web3)
                                         (Bs58.keys 100))))
                 (request_of (W := Bs58.web3)
                    (Sample.boom_on_single Sample.all_absent) None
                    [Bs58.key 100])
               = Sample.fail "boom") by (vm_compute; reflexivity).
  assert (H3 : forall i e',
             i <> 1 ->
             nth_error (outcomes (W := Bs58.web3)
                          (Sample.boom_on_single Sample.all_absent) None []
                          (batches_of (W := Bs58.web3) (Bs58.keys 100))) i
             = Some (Throw e') ->
             Sample.together 1 < Sample.together i).
  { intros i e' Hne Hi. exfalso.
    destruct i as [| [| i]]; [| congruence |];
      vm_compute in Hi; [discriminate | destruct i; discriminate]. }
  split; [exact H1 |]. split; [exact H2 |]. split; [exact H3 |].
  exact (proj2 (remote_error_surfaces (W := Bs58.web3) Sample.together
                  (Sample.boom_on_single Sample.all_absent) (Bs58.keys 100)
                  None [] 1 [Bs58.key 100]
                  {| error := Some {| message := "boom" |}; result := None |}
                  {| message := "boom" |} H1 H2 eq_refl) H3).
Defined.

(** C2 as stated fails: the remote refuses the second chunk with "boom"
    and the first with "bang"; the fetch fails with the error of the
    first chunk, which mentions neither "boom" nor the identifier of the
    second chunk. *)
Lemma remote_error_of_later_chunk_lost :
  nth_error (batches_of (W := Bs58.web3) (Bs58.keys 100)) 1
  = Some [Bs58.key 100] /\
  remote (Sample.boom_on_single (fun _ => Sample.fail "bang"))
         ([] ++ map (request_of (W := Bs58.web3)
                       (Sample.boom_on_single (fun _ => Sample.fail "bang"))
                       None)
                    (firstn 1 (batches_of (W := Bs58.web3) (Bs58.keys 100))))
         (request_of (W := Bs58.web3)
            (Sample.boom_on_single (fun _ => Sample.fail "bang")) None
            [Bs58.key 100])
  = Sample.fail "boom" /\
  exists msg,
    fst (getMultipleAccounts (W := Bs58.web3) Sample.together
           (Sample.boom_on_single (fun _ => Sample.fail "bang"))
           (Bs58.keys 100) None [])
    = Throw (FetchError msg) /\
    ~ contains "boom" msg /\
    ~ contains (String.concat ", "
                  (map (toBase58 (Web3 := Bs58.web3)) [Bs58.key 100])) msg.
Proof.
  split; [vm_compute; reflexivity |]. split; [vm_compute; reflexivity |].
  eexists. split; [vm_compute; reflexivity |].
  split; intros H; apply contains_containsb in H;
    try (vm_compute; discriminate); vm_compute in H; discriminate.
Qed.

(* ================================================================== *)
(** * Further properties of the fetch *)
(* ================================================================== *)

(** ** One response *)

Section Response.

Context {W : Web3}.

Lemma map_idx_from_nth {A B} (f : A -> nat -> B) (l : list A) :
  forall k i,
    nth_error (map_idx_from f k l) i
    = option_map (fun x => f x (k + i)) (nth_error l i).
Proof.
  induction l as [| x r IH]; intros k i.
  - destruct i; reflexivity.
  - destruct i as [| i]; cbn [map_idx_from nth_error option_map].
    + now rewrite Nat.add_0_r.
    + rewrite IH. now rewrite Nat.add_succ_r.
Qed.

Lemma decodes_nth raw ds :
  decodes raw ds ->
  forall i,
    match nth_error raw i with
    | None => nth_error ds i = None
    | Some None => nth_error ds i = Some None
    | Some (Some a) =>
        exists pk,
          PublicKey_new (Raw.owner a) = inr pk /\
          nth_error ds i = Some (Some (decoded a pk))
    end.
Proof.
  induction 1 as [| rs ds Hd IH | a rs pk ds Hpk Htag Hd IH]; intros i.
  - destruct i; reflexivity.
  - destruct i as [| i]; [reflexivity | apply IH].
  - destruct i as [| i]; [now exists pk | apply IH].
Qed.

Lemma decodes_accepted raw ds :
  decodes raw ds ->
  forall a,
    In (Some a) raw ->
    snd (Raw.data a) = "base64" /\
    exists pk, PublicKey_new (Raw.owner a) = inr pk.
Proof.
  induction 1 as [| rs ds Hd IH | a0 rs pk ds Hpk Htag Hd IH]; intros a Hin.
  - destruct Hin.
  - destruct Hin as [Heq | Hin]; [discriminate | now apply IH].
  - destruct Hin as [Heq | Hin]; [| now apply IH].
    inversion Heq; subst. split; [exact Htag | now exists pk].
Qed.

Lemma rejected_not_accepted (a : Raw.t) :
  rejected a ->
  snd (Raw.data a) = "base64" ->
  (exists pk, PublicKey_new (Raw.owner a) = inr pk) ->
  False.
Proof.
  intros [Hne | [msg Hmsg]] Htag [pk Hpk]; [now apply Hne |].
  rewrite Hmsg in Hpk. discriminate.
Qed.

(** What a response that decodes is turned into, entry by entry. *)
Lemma handle_response_nth (keys : list PublicKey) res out :
  handle_response keys res = Ok out ->
  forall i,
    match nth_error (entries (inr res)) i with
    | None => nth_error out i = None
    | Some None => nth_error out i = Some None
    | Some (Some a) =>
        exists pk,
          PublicKey_new (Raw.owner a) = inr pk /\
          nth_error out i
          = Some (Some {| publicKey := nth_error keys i;
                          account := decoded a pk |})
    end.
Proof.
  intros H i. apply handle_response_ok in H.
  destruct H as (_ & rv & ds & Hrv & Hds & ->).
  cbn [entries]. rewrite Hrv.
  unfold pair_with_keys, map_idx. rewrite map_idx_from_nth.
  pose proof (decodes_nth _ _ Hds i) as Hi.
  destruct (nth_error (value rv) i) as [[a |] |].
  - destruct Hi as (pk & Hpk & Hi). exists pk. split; [exact Hpk |].
    now rewrite Hi.
  - now rewrite Hi.
  - now rewrite Hi.
Qed.

Lemma handle_response_keyed (keys : list PublicKey) res out :
  handle_response keys res = Ok out ->
  forall i slot,
    nth_error out i = Some (Some slot) ->
    publicKey slot = nth_error keys i.
Proof.
  intros H i slot Hi. pose proof (handle_response_nth _ _ _ H i) as Hn.
  destruct (nth_error (entries (inr res)) i) as [[a |] |].
  - destruct Hn as (pk & _ & Hn). rewrite Hn in Hi.
    inversion Hi; subst. reflexivity.
  - rewrite Hn in Hi. discriminate.
  - rewrite Hn in Hi. discriminate.
Qed.

(** X1.  A response that decodes gives one slot per entry, whatever the
    number of identifiers asked for: [null] for a [null] entry, and for a
    present entry its decoded record with the identifier at the same
    index, which is [undefined] past the end of the identifiers. *)
Theorem response_slots (publicKeys : list PublicKey) (res : RpcResponse)
    (out : list (option Slot)) :
  handle_response publicKeys res = Ok out ->
  List.length out = List.length (entries (inr res)) /\
  forall i,
    match nth_error (entries (inr res)) i with
    | None => nth_error out i = None
    | Some None => nth_error out i = Some None
    | Some (Some entry) =>
        exists pk,
          PublicKey_new (Raw.owner entry) = inr pk /\
          nth_error out i
          = Some (Some {| publicKey := nth_error publicKeys i;
                          account := decoded entry pk |}) /\
          (List.length publicKeys <= i ->
           nth_error out i
           = Some (Some {| publicKey := None;
                           account := decoded entry pk |}))
    end.
Proof.
  intros H. split; [exact (handle_response_length _ _ _ H) |].
  intros i. pose proof (handle_response_nth _ _ _ H i) as Hn.
  destruct (nth_error (entries (inr res)) i) as [[a |] |]; auto.
  destruct Hn as (pk & Hpk & Hn). exists pk.
  split; [exact Hpk |]. split; [exact Hn |].
  intros Hle. rewrite Hn.
  now rewrite (proj2 (nth_error_None publicKeys i) Hle).
Qed.

End Response.

(** ** The chunks of a fetch *)

Section Chunks.

Context {W : Web3}.

Lemma Promise_all_map_Ok {A} (s : nat -> nat) (rs : list A) :
  Promise_all s (map Ok rs) = Ok rs.
Proof.
  unfold Promise_all.
  assert (Hnone : forall e, ~ In (@Throw A e) (map Ok rs)).
  { intros e Hin. apply in_map_iff in Hin.
    destruct Hin as (r & Hr & _). discriminate. }
  rewrite (proj2 (first_rejection_none s (map Ok rs) 0) Hnone).
  f_equal. clear Hnone. induction rs as [| r rs IH]; cbn; congruence.
Qed.

Lemma Forall2_In_r {A B} (R : A -> B -> Prop) l l' b :
  Forall2 R l l' -> In b l' -> exists a, In a l /\ R a b.
Proof.
  induction 1 as [| x y l l' Hxy Hf IH]; intros Hin; [destruct Hin |].
  destruct Hin as [<- | Hin].
  - exists x. split; [now left | exact Hxy].
  - destruct (IH Hin) as (a & Ha & HR). exists a. split; [now right | auto].
Qed.

Lemma outcomes_results (connection : Connection)
    (commitment : option Commitment) (batches : list (list PublicKey)) :
  forall tr rs,
    outcomes connection commitment tr batches = map Ok rs ->
    Forall2 (fun chunk r =>
               exists tr' res,
                 remote connection tr'
                        (request_of connection commitment chunk) = inr res /\
                 handle_response chunk res = Ok r)
            batches rs.
Proof.
  induction batches as [| b bs IH]; intros tr rs H.
  - destruct rs; [constructor | discriminate].
  - rewrite outcomes_cons in H. destruct rs as [| r rs]; [discriminate |].
    cbn [map] in H. inversion H as [[H1 H2]].
    apply core_ok in H1. destruct H1 as (res & Hres & Hh).
    constructor; [now exists tr, res | apply (IH _ _ H2)].
Qed.

Lemma for_of_throw_kind rv (l : list (option Raw.t)) :
  forall accounts e,
    for_of (decode_entry rv) l accounts = Throw e ->
    e = AssertionError \/ exists msg, e = LibraryError msg.
Proof.
  induction l as [| entry l IH]; intros accounts e H; [discriminate |].
  cbn [for_of] in H.
  destruct (decode_entry rv accounts entry) as [acc' | e'] eqn:Hd.
  - now apply IH in H.
  - inversion H; subst e'. destruct entry as [a |]; [| discriminate].
    rewrite decode_entry_present in Hd.
    destruct (String.eqb _ _).
    + destruct (PublicKey_new _) as [msg |]; [| discriminate].
      inversion Hd. right. now exists msg.
    + inversion Hd. now left.
Qed.

Lemma handle_response_accepts (keys : list PublicKey) res rv :
  error res = None ->
  result res = Some rv ->
  (forall a, In (Some a) (value rv) ->
             snd (Raw.data a) = "base64" /\
             exists pk, PublicKey_new (Raw.owner a) = inr pk) ->
  exists out, handle_response keys res = Ok out.
Proof.
  intros Herr Hrv Hacc. unfold handle_response. rewrite Herr, Hrv.
  destruct (for_of (decode_entry (value rv)) (value rv) []) as [ds | e]
    eqn:Hf.
  - cbn. eexists. reflexivity.
  - exfalso. apply for_of_throw in Hf. destruct Hf as (_ & a & Hin & Hr).
    destruct (Hacc a Hin) as [Htag Hpk].
    exact (rejected_not_accepted a Hr Htag Hpk).
Qed.

Lemma handle_response_fetch_error (keys : list PublicKey) res msg :
  handle_response keys res = Throw (FetchError msg) ->
  exists err,
    error res = Some err /\
    msg = ("failed to get info about accounts " ++
           String.concat ", " (map toBase58 keys) ++
           ": " ++ message err)%string.
Proof.
  unfold handle_response.
  destruct (error res) as [err |].
  - intros H. inversion H. now exists err.
  - destruct (result res) as [rv |]; [| discriminate].
    destruct (for_of (decode_entry (value rv)) (value rv) []) as [ds | e]
      eqn:Hf; cbn; [discriminate |].
    intros H. inversion H; subst e.
    apply for_of_throw_kind in Hf.
    destruct Hf as [Hf | [m Hf]]; discriminate.
Qed.

(** The error of a failed fetch is the error of one of its chunks. *)
Lemma fetch_throw_origin (s : nat -> nat) (connection : Connection)
    (commitment : option Commitment) (keys : list PublicKey) tr e :
  fst (getMultipleAccounts s connection keys commitment tr) = Throw e ->
  exists j chunk,
    nth_error (batches_of keys) j = Some chunk /\
    ((exists msg,
         remote connection
                (tr ++ map (request_of connection commitment)
                           (firstn j (batches_of keys)))
                (request_of connection commitment chunk) = inl msg /\
         e = TransportError msg) \/
     (exists res,
         remote connection
                (tr ++ map (request_of connection commitment)
                           (firstn j (batches_of keys)))
                (request_of connection commitment chunk) = inr res /\
         handle_response chunk res = Throw e)).
Proof.
  rewrite fetch_run. cbn [fst].
  destruct (Promise_all s _) as [rs | e'] eqn:Hp; [discriminate |].
  cbn. intros H. inversion H; subst e'.
  apply Promise_all_reason, In_nth_error in Hp. destruct Hp as [j Hj].
  assert (Hlt : j < List.length (batches_of keys)).
  { rewrite <- (outcomes_length connection commitment _ tr).
    apply nth_error_Some. congruence. }
  destruct (nth_error (batches_of keys) j) as [chunk |] eqn:Hc;
    [| apply nth_error_None in Hc; lia].
  exists j, chunk. split; [exact Hc |].
  rewrite (outcomes_nth _ _ _ _ _ _ Hc), core_run in Hj. cbn [fst] in Hj.
  destruct (remote connection _ _) as [msg | res].
  - left. exists msg. split; [reflexivity | congruence].
  - right. exists res. split; [reflexivity | congruence].
Qed.

Lemma outcomes_stateless (connection : Connection)
    (commitment : option Commitment) (batches : list (list PublicKey)) :
  (forall t t' r, remote connection t r = remote connection t' r) ->
  forall tr tr',
    outcomes connection commitment tr batches
    = outcomes connection commitment tr' batches.
Proof.
  intros Hs. induction batches as [| b bs IH]; intros tr tr';
    [reflexivity |].
  rewrite !outcomes_cons, !core_run. cbn [fst].
  rewrite (Hs tr tr'). f_equal. apply IH.
Qed.

End Chunks.

Section FetchProperties.

Context {W : Web3}.

Lemma for_of_accepted_prefix rv (pre rest : list (option Raw.t)) :
  (forall b, In (Some b) pre ->
             snd (Raw.data b) = "base64" /\
             exists pk, PublicKey_new (Raw.owner b) = inr pk) ->
  forall accounts,
  exists ds,
    for_of (decode_entry rv) (pre ++ rest) accounts
    = for_of (decode_entry rv) rest (accounts ++ ds).
Proof.
  induction pre as [| entry pre IH]; intros Hacc accounts.
  - exists []. now rewrite app_nil_r.
  - cbn [app for_of]. destruct entry as [a |].
    + destruct (Hacc a (or_introl eq_refl)) as (Htag & pk & Hpk).
      rewrite (decode_entry_accepted rv accounts a pk Htag Hpk).
      destruct (IH (fun b Hb => Hacc b (or_intror Hb))
                   (accounts ++ [Some (decoded a pk)])) as (ds & Hds).
      exists (Some (decoded a pk) :: ds).
      rewrite Hds, <- app_assoc. reflexivity.
    + rewrite decode_entry_null.
      destruct (IH (fun b Hb => Hacc b (or_intror Hb))
                   (accounts ++ [None])) as (ds & Hds).
      exists (None :: ds). rewrite Hds, <- app_assoc. reflexivity.
Qed.

(** X2.  The decode loop stops at the first entry it rejects, and that
    entry decides the error: an assertion failure when its encoding tag
    is not ["base64"], whatever its owner string, and otherwise what the
    [PublicKey] constructor throws on its owner string.  The entries
    after it play no part. *)
Theorem first_rejected_entry_decides (publicKeys : list PublicKey)
    (res : RpcResponse) (rv : RpcResult)
    (pre post : list (option Raw.t)) (entry : Raw.t) :
  error res = None ->
  result res = Some rv ->
  value rv = pre ++ Some entry :: post ->
  (forall b, In (Some b) pre ->
             snd (Raw.data b) = "base64" /\
             exists pk, PublicKey_new (Raw.owner b) = inr pk) ->
  (snd (Raw.data entry) <> "base64" ->
   handle_response publicKeys res = Throw AssertionError) /\
  (forall msg,
      snd (Raw.data entry) = "base64" ->
      PublicKey_new (Raw.owner entry) = inl msg ->
      handle_response publicKeys res = Throw (LibraryError msg)).
Proof.
  intros Herr Hrv Hval Hpre. unfold handle_response.
  rewrite Herr, Hrv, Hval.
  destruct (for_of_accepted_prefix (pre ++ Some entry :: post) pre
              (Some entry :: post) Hpre []) as (ds & ->).
  cbn [for_of]. rewrite decode_entry_present. split.
  - intros Hne. apply String.eqb_neq in Hne. now rewrite Hne.
  - intros msg Htag Hmsg. apply String.eqb_eq in Htag.
    now rewrite Htag, Hmsg.
Qed.

(** X4.  A fetch never returns an identifier it was not given: the
    identifier of every slot of a successful fetch, when defined, is one
    of the input identifiers. *)
Theorem slot_keys_from_input (settled_at : nat -> nat)
    (connection : Connection) (publicKeys : list PublicKey)
    (commitment : option Commitment) (tr : list WireRequest)
    (out : list (option Slot)) :
  fst (getMultipleAccounts settled_at connection publicKeys
                           commitment tr) = Ok out ->
  forall slot k,
    In (Some slot) out ->
    publicKey slot = Some k ->
    In k publicKeys.
Proof.
  intros H slot k Hin Hk.
  apply fetch_fulfils in H. destruct H as (rs & Hrs & ->).
  apply outcomes_results in Hrs.
  apply in_concat in Hin. destruct Hin as (r & Hr & Hin).
  destruct (Forall2_In_r _ _ _ _ Hrs Hr)
    as (chunk & Hchunk & tr' & res & _ & Hh).
  apply In_nth_error in Hin. destruct Hin as [i Hi].
  rewrite (handle_response_keyed _ _ _ Hh i slot Hi) in Hk.
  apply nth_error_In in Hk.
  rewrite <- (batches_concat publicKeys).
  apply in_concat. now exists chunk.
Qed.

(** X5.  A fetch succeeds exactly when every chunk's request is answered
    by a response without error object, with a result, in which every
    present entry is tagged ["base64"] and has an owner string the
    [PublicKey] constructor accepts. *)
Theorem fetch_succeeds_iff (settled_at : nat -> nat)
    (connection : Connection) (publicKeys : list PublicKey)
    (commitment : option Commitment) (tr : list WireRequest) :
  (exists out,
      fst (getMultipleAccounts settled_at connection publicKeys
                               commitment tr) = Ok out) <->
  (forall j chunk,
      nth_error (batches_of publicKeys) j = Some chunk ->
      exists res rv,
        remote connection
               (tr ++ map (request_of connection commitment)
                          (firstn j (batches_of publicKeys)))
               (request_of connection commitment chunk) = inr res /\
        error res = None /\
        result res = Some rv /\
        forall entry,
          In (Some entry) (value rv) ->
          snd (Raw.data entry) = "base64" /\
          exists pk, PublicKey_new (Raw.owner entry) = inr pk).
Proof.
  split.
  - intros [out H] j chunk Hj.
    apply fetch_fulfils in H. destruct H as (rs & Hrs & _).
    pose proof (outcomes_nth connection commitment _ tr _ _ Hj) as Ho.
    rewrite Hrs, nth_error_map in Ho.
    destruct (nth_error rs j) as [r |]; [| discriminate].
    cbn in Ho. inversion Ho as [Hr]. symmetry in Hr.
    apply core_ok in Hr. destruct Hr as (res & Hres & Hh).
    apply handle_response_ok in Hh.
    destruct Hh as (Herr & rv & ds & Hrv & Hds & _).
    exists res, rv. repeat split; auto;
      apply (decodes_accepted _ _ Hds entry H).
  - intros Hall. rewrite fetch_run. cbn [fst].
    assert (Hnone : forall e,
               ~ In (Throw e)
                    (outcomes connection commitment tr
                              (batches_of publicKeys))).
    { intros e Hin. apply In_nth_error in Hin. destruct Hin as [j Hj].
      assert (Hlt : j < List.length (batches_of publicKeys)).
      { rewrite <- (outcomes_length connection commitment _ tr).
        apply nth_error_Some. congruence. }
      destruct (nth_error (batches_of publicKeys) j) as [chunk |] eqn:Hc;
        [| apply nth_error_None in Hc; lia].
      rewrite (outcomes_nth _ _ _ _ _ _ Hc), core_run in Hj.
      cbn [fst] in Hj.
      destruct (Hall j chunk Hc) as (res & rv & Hres & Herr & Hrv & Hacc).
      rewrite Hres in Hj.
      destruct (handle_response_accepts chunk res rv Herr Hrv Hacc)
        as (o & Ho).
      rewrite Ho in Hj. discriminate. }
    unfold Promise_all.
    rewrite (proj2 (first_rejection_none settled_at _ 0) Hnone).
    cbn. eexists. reflexivity.
Qed.

End FetchProperties.

Section Scheduling.

Context {W : Web3}.

(** X6.  The order in which the chunk responses arrive decides only
    which error a failing fetch reports: a fetch that succeeds under one
    order returns the same slots under every other, and a fetch that
    fails under one order fails under every other. *)
Theorem arrival_order_irrelevant (settled_at settled_at' : nat -> nat)
    (connection : Connection) (publicKeys : list PublicKey)
    (commitment : option Commitment) (tr : list WireRequest) :
  (forall out,
      fst (getMultipleAccounts settled_at connection publicKeys
                               commitment tr) = Ok out ->
      fst (getMultipleAccounts settled_at' connection publicKeys
                               commitment tr) = Ok out) /\
  (forall e,
      fst (getMultipleAccounts settled_at connection publicKeys
                               commitment tr) = Throw e ->
      exists e',
        fst (getMultipleAccounts settled_at' connection publicKeys
                                 commitment tr) = Throw e').
Proof.
  split.
  - intros out H. apply fetch_fulfils in H. destruct H as (rs & Hrs & ->).
    rewrite fetch_run. cbn [fst]. rewrite Hrs, Promise_all_map_Ok.
    reflexivity.
  - intros e H. rewrite fetch_run in H. cbn [fst] in H.
    destruct (Promise_all settled_at _) as [rs | e0] eqn:Hp;
      [discriminate |].
    apply Promise_all_reason in Hp.
    rewrite fetch_run. cbn [fst].
    destruct (Promise_all_rejects settled_at' _ _ Hp) as (e' & He' & _).
    rewrite He'. now exists e'.
Qed.

(** X7.  A fetch invents no error: what it fails with is, unchanged,
    what one of its chunks failed with, either the failure of the call
    itself or what the handling of that chunk's response threw. *)
Theorem fetch_error_is_a_chunk_error (settled_at : nat -> nat)
    (connection : Connection) (publicKeys : list PublicKey)
    (commitment : option Commitment) (tr : list WireRequest) (e : Exn) :
  fst (getMultipleAccounts settled_at connection publicKeys
                           commitment tr) = Throw e ->
  exists j chunk,
    nth_error (batches_of publicKeys) j = Some chunk /\
    ((exists msg,
         remote connection
                (tr ++ map (request_of connection commitment)
                           (firstn j (batches_of publicKeys)))
                (request_of connection commitment chunk) = inl msg /\
         e = TransportError msg) \/
     (exists res,
         remote connection
                (tr ++ map (request_of connection commitment)
                           (firstn j (batches_of publicKeys)))
                (request_of connection commitment chunk) = inr res /\
         handle_response chunk res = Throw e)).
Proof. apply fetch_throw_origin. Qed.

(** X8.  When the call for a chunk itself fails, the fetch fails; and
    when every other chunk succeeds it fails with that failure, with no
    response decoded in its place, in whatever order the responses
    arrive. *)
Theorem transport_failure_aborts (settled_at : nat -> nat)
    (connection : Connection) (publicKeys : list PublicKey)
    (commitment : option Commitment) (tr : list WireRequest)
    (j : nat) (chunk : list PublicKey) (msg : string) :
  nth_error (batches_of publicKeys) j = Some chunk ->
  remote connection
         (tr ++ map (request_of connection commitment)
                    (firstn j (batches_of publicKeys)))
         (request_of connection commitment chunk) = inl msg ->
  (exists e, fst (getMultipleAccounts settled_at connection publicKeys
                                      commitment tr) = Throw e) /\
  ((forall i o,
       i <> j ->
       nth_error (outcomes connection commitment tr
                           (batches_of publicKeys)) i = Some o ->
       exists r, o = Ok r) ->
   fst (getMultipleAccounts settled_at connection publicKeys
                            commitment tr) = Throw (TransportError msg)).
Proof.
  intros Hj Hres.
  assert (Ho : nth_error (outcomes connection commitment tr
                                   (batches_of publicKeys)) j
               = Some (Throw (TransportError msg))).
  { rewrite (outcomes_nth _ _ _ _ _ _ Hj), core_run. cbn [fst].
    now rewrite Hres. }
  split.
  - eapply fetch_rejects. exact Ho.
  - intros Hothers. eapply fetch_rejects_earliest; [exact Ho |].
    intros i e' Hne Hi. destruct (Hothers i _ Hne Hi) as [r Hr].
    discriminate.
Qed.

(** X10.  What a fetch sends does not depend on what it receives: two
    connections with the same default commitment are sent the same
    requests for the same identifiers, whether their remotes answer,
    report errors or cannot be reached.  A failing chunk neither stops
    the later requests nor is asked again. *)
Theorem requests_ignore_responses (settled_at settled_at' : nat -> nat)
    (connection connection' : Connection) (publicKeys : list PublicKey)
    (commitmentOverride : option Commitment)
    (tr tr' : list WireRequest) :
  commitment connection = commitment connection' ->
  issued (getMultipleAccounts settled_at connection publicKeys
                              commitmentOverride) tr
  = issued (getMultipleAccounts settled_at' connection' publicKeys
                                commitmentOverride) tr'.
Proof.
  intros Hc. rewrite !issued_fetch. apply map_ext. intros chunk.
  unfold request_of, request_args, effective_commitment.
  now rewrite Hc.
Qed.

End Scheduling.

(* ================================================================== *)
(** * Properties of [invoke] *)
(* ================================================================== *)

Section InvokeProperties.

Context {W : Web3}.
Variable translateAddress : Address -> Result PublicKey.
Variable getProvider : unit -> Result Provider.

Lemma app_one_neq {A} (l : list A) (x : A) : l ++ [x] <> l.
Proof.
  intros H. apply (f_equal (@List.length A)) in H.
  rewrite length_app in H. cbn in H. lia.
Qed.

(** X12.  [invoke] submits at most one transaction and leaves the
    earlier submissions as they are; it submits none exactly when the
    program address does not translate, or when no provider is given and
    the ambient one cannot be had, and it then fails with that error. *)
Theorem invoke_submits_at_most_once (programId : Address)
    (accounts : option (list AccountMeta))
    (data : option Base64.Buffer) (provider : option Provider)
    (log : list (Provider * Transaction)) :
  let run := invoke translateAddress getProvider programId accounts data
                    provider log in
  (snd run = log \/ exists p tx, snd run = log ++ [(p, tx)]) /\
  (snd run = log <->
   exists e,
     fst run = Throw e /\
     (translateAddress programId = Throw e \/
      (exists k, translateAddress programId = Ok k) /\
      provider = None /\ getProvider tt = Throw e)).
Proof.
  cbv zeta. unfold invoke.
  destruct (translateAddress programId) as [k | e].
  - destruct provider as [p |]; [| destruct (getProvider tt) as [p | e]].
    + cbn. split; [right; eauto |]. split.
      * intros H. now apply app_one_neq in H.
      * intros (e & _ & [H | (_ & H & _)]); discriminate.
    + cbn. split; [right; eauto |]. split.
      * intros H. now apply app_one_neq in H.
      * intros (e & _ & [H | (_ & _ & H)]); discriminate.
    + cbn. split; [now left |]. split; [| reflexivity].
      intros _. exists e. split; [reflexivity |]. right. eauto.
  - cbn. split; [now left |]. split; [| reflexivity].
    intros _. exists e. split; [reflexivity | now left].
Qed.

(** X13.  A transaction that [invoke] submits holds exactly one
    instruction: its program is what the address translates to, its
    accounts are the ones given, none when they are omitted, and its
    data is the data given; and it goes through the provider given, when
    one is. *)
Theorem invoke_single_instruction (programId : Address)
    (accounts : option (list AccountMeta))
    (data : option Base64.Buffer) (provider : option Provider)
    (log : list (Provider * Transaction))
    (p : Provider) (tx : Transaction) :
  In (p, tx)
     (skipn (List.length log)
            (snd (invoke translateAddress getProvider programId accounts
                         data provider log))) ->
  exists k,
    translateAddress programId = Ok k /\
    instructions tx
    = [{| Instruction.programId := k;
          Instruction.keys := match accounts with
                              | Some given => given
                              | None => []
                              end;
          Instruction.data := data |}] /\
    fst (invoke translateAddress getProvider programId accounts data
                provider log) = send p (map snd log) tx /\
    match provider with
    | Some given => p = given
    | None => getProvider tt = Ok p
    end.
Proof.
  unfold invoke.
  destruct (translateAddress programId) as [k | e].
  - destruct provider as [q |]; [| destruct (getProvider tt) as [q | e]];
      cbn [snd fst Provider_send].
    + rewrite skipn_app, skipn_all, Nat.sub_diag. cbn.
      intros [H | []]. inversion H; subst. exists k. auto.
    + rewrite skipn_app, skipn_all, Nat.sub_diag. cbn.
      intros [H | []]. inversion H; subst. exists k. auto.
    + rewrite skipn_all. intros [].
  - cbn [snd]. rewrite skipn_all. intros [].
Qed.

End InvokeProperties.

(* ================================================================== *)
(** * The further properties on concrete inputs *)
(* ================================================================== *)

(** X1, on two entries returned for one identifier. *)
Lemma response_slots_witness :
  handle_response (W := Bs58.web3) (Bs58.keys 1)
    (Sample.envelope [Some Sample.entry; Some Sample.entry])
  = Ok [Sample.slot 1; Sample.unkeyed] /\
  List.length [Sample.slot 1; Sample.unkeyed]
  = List.length
      (entries (inr (Sample.envelope [Some Sample.entry;
                                      Some Sample.entry]))) /\
  exists pk,
    PublicKey_new (Web3 := Bs58.web3) (Raw.owner Sample.entry) = inr pk /\
    nth_error [Sample.slot 1; Sample.unkeyed] 1
    = Some (Some (@Build_Slot Bs58.web3 (nth_error (Bs58.keys 1) 1)
                    (decoded (W := Bs58.web3) Sample.entry pk))) /\
    (List.length (Bs58.keys 1) <= 1 ->
     nth_error [Sample.slot 1; Sample.unkeyed] 1
     = Some (Some (@Build_Slot Bs58.web3 None
                     (decoded (W := Bs58.web3) Sample.entry pk)))).
Proof.
  assert (H : handle_response (W := Bs58.web3) (Bs58.keys 1)
                (Sample.envelope [Some Sample.entry; Some Sample.entry])
              = Ok [Sample.slot 1; Sample.unkeyed])
    by (vm_compute; reflexivity).
  split; [exact H |]. split.
  - exact (proj1 (response_slots (W := Bs58.web3) _ _ _ H)).
  - exact (proj2 (response_slots (W := Bs58.web3) _ _ _ H) 1).
Defined.

(** X2, on an entry with a wrong tag and a bad owner, after a good
    entry and before a bad one. *)
Lemma first_rejected_entry_decides_witness :
  value {| value := [Some Sample.entry; Some Sample.entry_both_bad;
                     Some Sample.entry_bad_owner] |}
  = [Some Sample.entry]
      ++ Some Sample.entry_both_bad :: [Some Sample.entry_bad_owner] /\
  snd (Raw.data Sample.entry_both_bad) <> "base64" /\
  handle_response (W := Bs58.web3) (Bs58.keys 3)
    (Sample.envelope [Some Sample.entry; Some Sample.entry_both_bad;
                      Some Sample.entry_bad_owner])
  = Throw AssertionError.
Proof.
  assert (Hne : snd (Raw.data Sample.entry_both_bad) <> "base64")
    by (simpl; discriminate).
  assert (Hpre : forall b,
             In (Some b) [Some Sample.entry] ->
             snd (Raw.data b) = "base64" /\
             exists pk,
               PublicKey_new (Web3 := Bs58.web3) (Raw.owner b) = inr pk).
  { intros b [Hb | []]. inversion Hb; subst b.
    split; [reflexivity |]. exists (Bs58.key 0). reflexivity. }
  split; [reflexivity |]. split; [exact Hne |].
  exact (proj1 (first_rejected_entry_decides (W := Bs58.web3)
                  (Bs58.keys 3)
                  (Sample.envelope [Some Sample.entry;
                                    Some Sample.entry_both_bad;
                                    Some Sample.entry_bad_owner])
                  {| value := [Some Sample.entry;
                               Some Sample.entry_both_bad;
                               Some Sample.entry_bad_owner] |}
                  [Some Sample.entry] [Some Sample.entry_bad_owner]
                  Sample.entry_both_bad eq_refl eq_refl eq_refl Hpre)
               Hne).
Defined.

(** X4, on the same ledger, fetched in the other arrival order. *)
Lemma slot_keys_from_input_witness :
  fst (getMultipleAccounts (W := Bs58.web3) Sample.reversed
         Sample.ledger3 (Bs58.keys 5) None []) = Ok Sample.five_slots /\
  forall slot k,
    In (Some slot) Sample.five_slots ->
    publicKey slot = Some k ->
    In k (Bs58.keys 5).
Proof.
  assert (H : fst (getMultipleAccounts (W := Bs58.web3) Sample.reversed
                     Sample.ledger3 (Bs58.keys 5) None [])
              = Ok Sample.five_slots) by (vm_compute; reflexivity).
  split; [exact H |].
  exact (slot_keys_from_input (W := Bs58.web3) Sample.reversed
           Sample.ledger3 (Bs58.keys 5) None [] Sample.five_slots H).
Defined.

(** X7, on 100 identifiers whose second chunk the remote refuses. *)
Lemma fetch_error_is_a_chunk_error_witness :
  fst (getMultipleAccounts (W := Bs58.web3) Sample.together
         (Sample.boom_on_single Sample.all_absent) (Bs58.keys 100)
         None [])
  = Throw (FetchError Sample.boom_100) /\
  exists j chunk,
    nth_error (batches_of (W := Bs58.web3) (Bs58.keys 100)) j
    = Some chunk /\
    ((exists msg,
         remote (Sample.boom_on_single Sample.all_absent)
                ([] ++ map (request_of (W := Bs58.web3)
                              (Sample.boom_on_single Sample.all_absent)
                              None)
                           (firstn j (batches_of (W := Bs58.web3)
                                        (Bs58.keys 100))))
                (request_of (W := Bs58.web3)
                   (Sample.boom_on_single Sample.all_absent) None chunk)
         = inl msg /\
         FetchError Sample.boom_100 = TransportError msg) \/
     (exists res,
         remote (Sample.boom_on_single Sample.all_absent)
                ([] ++ map (request_of (W := Bs58.web3)
                              (Sample.boom_on_single Sample.all_absent)
                              None)
                           (firstn j (batches_of (W := Bs58.web3)
                                        (Bs58.keys 100))))
                (request_of (W := Bs58.web3)
                   (Sample.boom_on_single Sample.all_absent) None chunk)
         = inr res /\
         handle_response (W := Bs58.web3) chunk res
         = Throw (FetchError Sample.boom_100))).
Proof.
  assert (H : fst (getMultipleAccounts (W := Bs58.web3) Sample.together
                     (Sample.boom_on_single Sample.all_absent)
                     (Bs58.keys 100) None [])
              = Throw (FetchError Sample.boom_100))
    by (vm_compute; reflexivity).
  split; [exact H |].
  exact (fetch_error_is_a_chunk_error (W := Bs58.web3) Sample.together
           (Sample.boom_on_single Sample.all_absent) (Bs58.keys 100)
           None [] _ H).
Defined.

(** X8, on a remote that cannot be reached. *)
Lemma transport_failure_aborts_witness :
  nth_error (batches_of (W := Bs58.web3) (Bs58.keys 1)) 0
  = Some (Bs58.keys 1) /\
  remote Sample.unreachable
         ([] ++ map (request_of (W := Bs58.web3) Sample.unreachable None)
                    (firstn 0 (batches_of (W := Bs58.web3) (Bs58.keys 1))))
         (request_of (W := Bs58.web3) Sample.unreachable None
                     (Bs58.keys 1))
  = inl "ECONNREFUSED" /\
  fst (getMultipleAccounts (W := Bs58.web3) Sample.together
         Sample.unreachable (Bs58.keys 1) None [])
  = Throw (TransportError "ECONNREFUSED").
Proof.
  assert (Ho : forall i o,
             i <> 0 ->
             nth_error (outcomes (W := Bs58.web3) Sample.unreachable None
                          [] (batches_of (W := Bs58.web3) (Bs58.keys 1))) i
             = Some o ->
             exists r, o = Ok r).
  { intros i o Hne Hi. exfalso. destruct i as [| i]; [congruence |].
    vm_compute in Hi. destruct i; discriminate. }
  split; [reflexivity |]. split; [reflexivity |].
  exact (proj2 (transport_failure_aborts (W := Bs58.web3) Sample.together
                  Sample.unreachable (Bs58.keys 1) None [] 0
                  (Bs58.keys 1) "ECONNREFUSED" eq_refl eq_refl) Ho).
Defined.

(** X10, on a ledger and a remote that cannot be reached. *)
Lemma requests_ignore_responses_witness :
  commitment Sample.ledger3 = commitment Sample.unreachable /\
  issued (getMultipleAccounts (W := Bs58.web3) Sample.together
            Sample.ledger3 (Bs58.keys 150) (Some finalized)) []
  = issued (getMultipleAccounts (W := Bs58.web3) Sample.reversed
              Sample.unreachable (Bs58.keys 150) (Some finalized)) [].
Proof.
  split; [reflexivity |].
  exact (requests_ignore_responses (W := Bs58.web3) Sample.together
           Sample.reversed Sample.ledger3 Sample.unreachable
           (Bs58.keys 150) (Some finalized) [] [] eq_refl).
Defined.

(** X13, on a program given by its base-58 string, without accounts. *)
Lemma invoke_single_instruction_witness :
  In (Sample.signer "sig", Sample.system_call)
     (skipn (List.length Sample.no_submission)
            (snd (invoke (W := Bs58.web3) Sample.translate
                    Sample.no_ambient
                    (AddressString Sample.system_program) None None
                    (Some (Sample.signer "sig"))
                    Sample.no_submission))) /\
  exists k,
    Sample.translate (AddressString Sample.system_program) = Ok k /\
    instructions Sample.system_call
    = [@Instruction.Build_t Bs58.web3 k [] None] /\
    fst (invoke (W := Bs58.web3) Sample.translate Sample.no_ambient
           (AddressString Sample.system_program) None None
           (Some (Sample.signer "sig")) Sample.no_submission)
    = send (Sample.signer "sig") (map snd Sample.no_submission)
           Sample.system_call /\
    Sample.signer "sig" = Sample.signer "sig".
Proof.
  assert (H : In (Sample.signer "sig", Sample.system_call)
                 (skipn (List.length Sample.no_submission)
                        (snd (invoke (W := Bs58.web3) Sample.translate
                                Sample.no_ambient
                                (AddressString Sample.system_program)
                                None None
                                (Some (Sample.signer "sig"))
                                Sample.no_submission))))
    by (left; reflexivity).
  split; [exact H |].
  exact (invoke_single_instruction (W := Bs58.web3) Sample.translate
           Sample.no_ambient (AddressString Sample.system_program)
           None None (Some (Sample.signer "sig")) Sample.no_submission
           _ _ H).
Defined.

(* ================================================================== *)
(** * The slots of a fetch against the entries of its responses *)
(* ================================================================== *)

Section Counts.

Context {W : Web3}.
Variable connection : Connection.
Variable commitment : option Commitment.

Local Abbreviation req := (request_of connection commitment).


(** The responses that decode make the fetch succeed. *)
Lemma fetch_accepts (s : nat -> nat) (keys : list PublicKey) tr :
  (forall j chunk,
      nth_error (batches_of keys) j = Some chunk ->
      exists res rv,
        remote connection (tr ++ map req (firstn j (batches_of keys)))
               (req chunk) = inr res /\
        error res = None /\
        result res = Some rv /\
        forall entry,
          In (Some entry) (value rv) ->
          snd (Raw.data entry) = "base64" /\
          exists pk, PublicKey_new (Raw.owner entry) = inr pk) ->
  exists out,
    fst (getMultipleAccounts s connection keys commitment tr) = Ok out.
Proof.
  intros Hall. rewrite fetch_run. cbn [fst].
  assert (Hnone : forall e,
             ~ In (Throw e)
                  (outcomes connection commitment tr (batches_of keys))).
  { intros e Hin. apply In_nth_error in Hin. destruct Hin as [j Hj].
    assert (Hlt : j < List.length (batches_of keys)).
    { rewrite <- (outcomes_length connection commitment _ tr).
      apply nth_error_Some. congruence. }
    destruct (nth_error (batches_of keys) j) as [chunk |] eqn:Hc;
      [| apply nth_error_None in Hc; lia].
    rewrite (outcomes_nth _ _ _ _ _ _ Hc), core_run in Hj.
    cbn [fst] in Hj.
    destruct (Hall j chunk Hc) as (res & rv & Hres & Herr & Hrv & Hacc).
    rewrite Hres in Hj.
    destruct (handle_response_accepts chunk res rv Herr Hrv Hacc)
      as (o & Ho).
    rewrite Ho in Hj. discriminate. }
  unfold Promise_all.
  rewrite (proj2 (first_rejection_none s _ 0) Hnone).
  cbn. eexists. reflexivity.
Qed.

(** The requests of a fetch, seen from its batches. *)
Lemma issued_nth (s : nat -> nat) (keys : list PublicKey) tr j chunk :
  nth_error (batches_of keys) j = Some chunk ->
  nth_error (issued (getMultipleAccounts s connection keys commitment) tr)
            j = Some (req chunk) /\
  firstn j (issued (getMultipleAccounts s connection keys commitment) tr)
  = map req (firstn j (batches_of keys)).
Proof.
  intros Hj. rewrite issued_fetch. split.
  - now apply map_nth_error.
  - apply firstn_map.
Qed.

End Counts.

Section SlotClaims.

Context {W : Web3}.


(** C3 (as amended).  The fetch checks no count: when every request of
    the fetch is answered by a response that decodes (no error object, a
    result, every present entry tagged ["base64"] with an owner the
    [PublicKey] constructor accepts), the fetch succeeds and returns as
    many slots as the remote returned entries over all the responses,
    whether or not that is the number of input identifiers. *)
Theorem slots_count_entries (settled_at : nat -> nat)
    (connection : Connection) (publicKeys : list PublicKey)
    (commitment : option Commitment) (tr : list WireRequest) :
  let reqs :=
    issued (getMultipleAccounts settled_at connection publicKeys
                                commitment) tr in
  (forall j r,
      nth_error reqs j = Some r ->
      exists res rv,
        remote connection (tr ++ firstn j reqs) r = inr res /\
        error res = None /\
        result res = Some rv /\
        forall entry,
          In (Some entry) (value rv) ->
          snd (Raw.data entry) = "base64" /\
          exists pk, PublicKey_new (Raw.owner entry) = inr pk) ->
  exists out,
    fst (getMultipleAccounts settled_at connection publicKeys
                             commitment tr) = Ok out /\
    List.length out = List.length (raw_entries connection tr reqs).
Proof.
  cbv zeta. intros Hall.
  destruct (fetch_accepts connection commitment settled_at publicKeys tr)
    as [out Hok].
  { intros j chunk Hj.
    destruct (issued_nth connection commitment settled_at publicKeys tr
                         j chunk Hj) as [Hn Hf].
    destruct (Hall j _ Hn) as (res & rv & Hres & Hrest).
    exists res, rv. split; [now rewrite <- Hf | exact Hrest]. }
  exists out. split; [exact Hok |].
  rewrite issued_fetch.
  apply fetch_fulfils in Hok. destruct Hok as (rs & Hrs & ->).
  now apply outcomes_length_raw.
Qed.

(** C9 (as amended).  The ["Invalid response"] exit of the decode loop is
    dead.  A pass over a [null] entry pushes [null]; a pass over a
    present entry ends in exactly one of three ways: the assertion on the
    encoding tag fires, or the tag is ["base64"] and the [PublicKey]
    constructor throws on the owner string, or a non-null decoded value
    is built and pushed.  So the check after the conditional never finds
    the value still [null], and no fetch fails with
    ["Invalid response"]. *)
Theorem invalid_response_unreachable :
  (forall (result_value : list (option Raw.t))
          (accounts : list (option AccountInfo))
          (entry : option Raw.t),
      decode_entry result_value accounts entry <> Throw InvalidResponse /\
      match entry with
      | None =>
          decode_entry result_value accounts entry
          = Ok (accounts ++ [None])
      | Some present =>
          (snd (Raw.data present) <> "base64" /\
           decode_entry result_value accounts entry
           = Throw AssertionError) \/
          (snd (Raw.data present) = "base64" /\
           exists msg,
             PublicKey_new (Raw.owner present) = inl msg /\
             decode_entry result_value accounts entry
             = Throw (LibraryError msg)) \/
          (snd (Raw.data present) = "base64" /\
           exists pk,
             PublicKey_new (Raw.owner present) = inr pk /\
             decode_entry result_value accounts entry
             = Ok (accounts ++ [Some (decoded present pk)]))
      end) /\
  (forall (settled_at : nat -> nat) (connection : Connection)
          (publicKeys : list PublicKey) (commitment : option Commitment)
          (tr : list WireRequest),
      fst (getMultipleAccounts settled_at connection publicKeys
                               commitment tr)
      <> Throw InvalidResponse).
Proof.
  split.
  - intros rv accounts entry. split; [apply decode_entry_valid |].
    destruct entry as [a |]; [| reflexivity].
    rewrite decode_entry_present.
    destruct (String.eqb_spec (snd (Raw.data a)) "base64") as [He | Hne].
    + right. destruct (PublicKey_new (Raw.owner a)) as [msg | pk] eqn:Hpk.
      * left. split; [exact He |]. now exists msg.
      * right. split; [exact He |]. now exists pk.
    + left. now split.
  - intros. apply fetch_valid.
Qed.

(** X3.  The result of a fetch that succeeds is the concatenation, in
    chunk order, of what [handle_response] makes of each chunk's own
    response: the piece of chunk [j] has one slot per entry of the
    response to request [j], and its slot [i] carries identifier [i] of
    chunk [j], an index within the chunk and not within the input. *)
Theorem slots_keyed_within_chunk (settled_at : nat -> nat)
    (connection : Connection) (publicKeys : list PublicKey)
    (commitment : option Commitment) (tr : list WireRequest)
    (out : list (option Slot)) :
  fst (getMultipleAccounts settled_at connection publicKeys
                           commitment tr) = Ok out ->
  exists rs,
    out = List.concat rs /\
    List.length rs = List.length (batches_of publicKeys) /\
    forall j chunk,
      nth_error (batches_of publicKeys) j = Some chunk ->
      exists res r,
        remote connection
               (tr ++ map (request_of connection commitment)
                          (firstn j (batches_of publicKeys)))
               (request_of connection commitment chunk) = inr res /\
        nth_error rs j = Some r /\
        handle_response chunk res = Ok r /\
        List.length r = List.length (entries (inr res)) /\
        forall i slot,
          nth_error r i = Some (Some slot) ->
          publicKey slot = nth_error chunk i.
Proof.
  intros H. apply fetch_fulfils in H. destruct H as (rs & Hrs & ->).
  exists rs. split; [reflexivity |]. split.
  - rewrite <- (outcomes_length connection commitment _ tr), Hrs.
    now rewrite length_map.
  - intros j chunk Hj.
    pose proof (outcomes_nth connection commitment _ tr _ _ Hj) as Ho.
    rewrite Hrs, nth_error_map in Ho.
    destruct (nth_error rs j) as [r |] eqn:Hr; [| discriminate].
    cbn in Ho. inversion Ho as [Hcore]. symmetry in Hcore.
    apply core_ok in Hcore. destruct Hcore as (res & Hres & Hh).
    exists res, r. repeat split; auto.
    + exact (handle_response_length _ _ _ Hh).
    + exact (handle_response_keyed _ _ _ Hh).
Qed.

(** X11.  On a remote whose answer to a request does not depend on the
    requests made before, a fetch that succeeds returns the same slots
    when it is made again, whatever was requested in between and in
    whatever order the responses arrive; a fetch that fails fails again;
    and in the same arrival order it fails with the same error. *)
Theorem stateless_remote_repeatable (settled_at settled_at' : nat -> nat)
    (connection : Connection) (publicKeys : list PublicKey)
    (commitment : option Commitment) (tr tr' : list WireRequest) :
  (forall t t' r, remote connection t r = remote connection t' r) ->
  (forall out,
      fst (getMultipleAccounts settled_at connection publicKeys
                               commitment tr) = Ok out ->
      fst (getMultipleAccounts settled_at' connection publicKeys
                               commitment tr') = Ok out) /\
  (forall e,
      fst (getMultipleAccounts settled_at connection publicKeys
                               commitment tr) = Throw e ->
      exists e',
        fst (getMultipleAccounts settled_at' connection publicKeys
                                 commitment tr') = Throw e') /\
  fst (getMultipleAccounts settled_at connection publicKeys
                           commitment tr)
  = fst (getMultipleAccounts settled_at connection publicKeys
                             commitment tr') /\
  (let twice :=
     first <- getMultipleAccounts settled_at connection publicKeys
                                  commitment ;;
     second <- getMultipleAccounts settled_at' connection publicKeys
                                   commitment ;;
     ret (first, second) in
   forall out,
     fst (fst (twice tr)) = Ok out -> snd (fst (twice tr)) = Ok out).
Proof.
  intros Hs.
  assert (Hout : forall t t',
             outcomes connection commitment t (batches_of publicKeys)
             = outcomes connection commitment t' (batches_of publicKeys))
    by (intros t t'; now apply outcomes_stateless).
  assert (Hok : forall s s' t t' out,
             fst (getMultipleAccounts s connection publicKeys
                                      commitment t) = Ok out ->
             fst (getMultipleAccounts s' connection publicKeys
                                      commitment t') = Ok out).
  { intros s s' t t' out H.
    apply fetch_fulfils in H. destruct H as (rs & Hrs & ->).
    rewrite fetch_run. cbn [fst].
    rewrite (Hout t' t), Hrs, Promise_all_map_Ok. reflexivity. }
  split; [apply Hok |]. split; [| split].
  - intros e H. rewrite fetch_run in H. cbn [fst] in H.
    destruct (Promise_all settled_at _) as [rs | e0] eqn:Hp;
      [discriminate |].
    apply Promise_all_reason in Hp. rewrite (Hout tr tr') in Hp.
    rewrite fetch_run. cbn [fst].
    destruct (Promise_all_rejects settled_at' _ _ Hp) as (e' & He' & _).
    rewrite He'. now exists e'.
  - rewrite !fetch_run. cbn [fst]. now rewrite (Hout tr tr').
  - cbv zeta. unfold bind, ret. intros out.
    destruct (getMultipleAccounts settled_at connection publicKeys
                                  commitment tr) as [r1 tr1] eqn:H1.
    destruct (getMultipleAccounts settled_at' connection publicKeys
                                  commitment tr1) as [r2 tr2] eqn:H2.
    cbn [fst snd]. intros ->.
    change r2 with (fst (r2, tr2)). rewrite <- H2.
    apply (Hok settled_at settled_at' tr tr1).
    now rewrite H1.
Qed.

End SlotClaims.


(** C3, on 100 identifiers, in two chunks, each answered with two
    entries: four slots come back. *)
Lemma slots_count_entries_witness :
  (forall j r,
      nth_error
        (issued (getMultipleAccounts (W := Bs58.web3) Sample.together
                   (Sample.fixed [None; None]) (Bs58.keys 100) None) []) j
      = Some r ->
      exists res rv,
        remote (Sample.fixed [None; None])
               ([] ++ firstn j
                        (issued (getMultipleAccounts (W := Bs58.web3)
                                   Sample.together
                                   (Sample.fixed [None; None])
                                   (Bs58.keys 100) None) [])) r
        = inr res /\
        error res = None /\
        result res = Some rv /\
        forall entry,
          In (Some entry) (value rv) ->
          snd (Raw.data entry) = "base64" /\
          exists pk,
            PublicKey_new (Web3 := Bs58.web3) (Raw.owner entry) = inr pk) /\
  exists out,
    fst (getMultipleAccounts (W := Bs58.web3) Sample.together
           (Sample.fixed [None; None]) (Bs58.keys 100) None []) = Ok out /\
    List.length out
    = List.length
        (raw_entries (Sample.fixed [None; None]) []
           (issued (getMultipleAccounts (W := Bs58.web3) Sample.together
                      (Sample.fixed [None; None]) (Bs58.keys 100) None)
                   [])).
Proof.
  assert (H : forall j r,
             nth_error
               (issued (getMultipleAccounts (W := Bs58.web3)
                          Sample.together (Sample.fixed [None; None])
                          (Bs58.keys 100) None) []) j = Some r ->
             exists res rv,
               remote (Sample.fixed [None; None])
                      ([] ++ firstn j
                               (issued (getMultipleAccounts
                                          (W := Bs58.web3) Sample.together
                                          (Sample.fixed [None; None])
                                          (Bs58.keys 100) None) [])) r
               = inr res /\
               error res = None /\
               result res = Some rv /\
               forall entry,
                 In (Some entry) (value rv) ->
                 snd (Raw.data entry) = "base64" /\
                 exists pk,
                   PublicKey_new (Web3 := Bs58.web3) (Raw.owner entry)
                   = inr pk).
  { intros j r _.
    exists (Sample.envelope [None; None]), {| value := [None; None] |}.
    split; [reflexivity |]. split; [reflexivity |].
    split; [reflexivity |].
    intros entry [Hin | [Hin | []]]; discriminate. }
  split; [exact H |].
  exact (slots_count_entries (W := Bs58.web3) Sample.together
           (Sample.fixed [None; None]) (Bs58.keys 100) None [] H).
Defined.

(** C9 as stated fails: its three cases leave one out.  The entry is
    present, its tag is ["base64"] so the assertion passes, and no value
    is built: the [PublicKey] constructor throws on the owner. *)
Lemma constructor_throw_is_a_fourth_case :
  Some Sample.entry_bad_owner <> None /\
  assert (String.eqb (snd (Raw.data Sample.entry_bad_owner)) "base64")
  = Ok tt /\
  decode_entry (W := Bs58.web3) [Some Sample.entry_bad_owner] []
               (Some Sample.entry_bad_owner)
  = Throw (LibraryError "Non-base58 character") /\
  forall v,
    decode_entry (W := Bs58.web3) [Some Sample.entry_bad_owner] []
                 (Some Sample.entry_bad_owner)
    <> Ok ([] ++ [Some v]).
Proof.
  split; [discriminate |]. split; [reflexivity |].
  split; [reflexivity |]. intros v. discriminate.
Qed.

(** X3, on 100 identifiers and a remote that leaves out the first
    identifier of the first chunk: the slot after the 98 of the first
    chunk is keyed by the hundredth identifier, the first of its own
    chunk, and not by the ninety-ninth. *)
Lemma slots_keyed_within_chunk_witness :
  fst (getMultipleAccounts (W := Bs58.web3) Sample.together
         Sample.drops_first (Bs58.keys 100) None [])
  = Ok Sample.shifted_slots /\
  exists rs,
    Sample.shifted_slots = List.concat rs /\
    List.length rs
    = List.length (batches_of (W := Bs58.web3) (Bs58.keys 100)) /\
    forall j chunk,
      nth_error (batches_of (W := Bs58.web3) (Bs58.keys 100)) j
      = Some chunk ->
      exists res r,
        remote Sample.drops_first
               ([] ++ map (request_of (W := Bs58.web3)
                             Sample.drops_first None)
                          (firstn j (batches_of (W := Bs58.web3)
                                       (Bs58.keys 100))))
               (request_of (W := Bs58.web3) Sample.drops_first None chunk)
        = inr res /\
        nth_error rs j = Some r /\
        handle_response (W := Bs58.web3) chunk res = Ok r /\
        List.length r = List.length (entries (inr res)) /\
        forall i slot,
          nth_error r i = Some (Some slot) ->
          publicKey slot = nth_error chunk i.
Proof.
  assert (H : fst (getMultipleAccounts (W := Bs58.web3) Sample.together
                     Sample.drops_first (Bs58.keys 100) None [])
              = Ok Sample.shifted_slots) by reflexivity.
  split; [exact H |].
  exact (slots_keyed_within_chunk (W := Bs58.web3) Sample.together
           Sample.drops_first (Bs58.keys 100) None []
           Sample.shifted_slots H).
Defined.

(** X11, on a ledger: 100 identifiers fetched again after another
    request, the responses arriving in the other order. *)
Lemma stateless_remote_repeatable_witness :
  (forall t t' r,
      remote Sample.ledger3 t r = remote Sample.ledger3 t' r) /\
  fst (getMultipleAccounts (W := Bs58.web3) Sample.together
         Sample.ledger3 (Bs58.keys 100) None [])
  = Ok Sample.hundred_slots /\
  fst (getMultipleAccounts (W := Bs58.web3) Sample.reversed
         Sample.ledger3 (Bs58.keys 100) None
         [{| method := "getSlot"; params := [] |}])
  = Ok Sample.hundred_slots.
Proof.
  assert (Hs : forall t t' r,
             remote Sample.ledger3 t r = remote Sample.ledger3 t' r)
    by (intros t t' r; reflexivity).
  assert (Hf : fst (getMultipleAccounts (W := Bs58.web3) Sample.together
                      Sample.ledger3 (Bs58.keys 100) None [])
               = Ok Sample.hundred_slots) by reflexivity.
  split; [exact Hs |]. split; [exact Hf |].
  exact (proj1 (stateless_remote_repeatable (W := Bs58.web3)
                  Sample.together Sample.reversed Sample.ledger3
                  (Bs58.keys 100) None []
                  [{| method := "getSlot"; params := [] |}] Hs)
               Sample.hundred_slots Hf).
Defined.
